(** * The shopping-list view: a model of [src/components/ShoppingList.js]

    The component keeps a handful of React state variables, derives the
    rendered lists from them with [filter] and [sort], and talks to a hosted
    database through asynchronous calls that either answer or report an
    error.  The model has three layers:

    - the string and array built-ins of the JavaScript platform the code
      calls ([trim], [toLowerCase], [localeCompare], [includes], [find],
      [sort]);
    - the hosted service, as two tables and the requests the component
      sends to them;
    - the component itself: its derived views as pure functions of the
      state, its handlers as programs of a small monad that threads the
      state and the service and carries the [throw] of the source.

    A handler is run from its call to its last [await] in one piece: events
    that arrive while a call is pending are not interleaved with it.  A
    handler called again before the component has re-rendered reads the
    state of the old render ([dispatch_from]).

    An older copy of the component ([src/unnamed/part_000]) differs only in
    its built-in category list and in [getItemsByCategory], which does not
    sort; these two definitions are in [Module Legacy]. *)

From Stdlib Require Import ZArith List Permutation Sorted String Ascii.
From stdpp Require Import gmap strings list sorting.

Local Open Scope string_scope.
Local Open Scope Z_scope.

(** ** JavaScript built-ins *)

(** The three [String.prototype] methods the component calls.  Their
    results depend on the engine's Unicode tables and on the locale, so the
    component is modelled over any implementation of them. *)
Class JSString := {
  trim : string → string;
  toLowerCase : string → string;
  localeCompare : string → string → Z
}.

(** What ECMA-402 requires of a collator's comparison: a consistent
    comparator, i.e. "compares at most" is total and transitive. *)
Class Collation `{JSString} : Prop := {
  localeCompare_total : ∀ a b, 0 < localeCompare a b → localeCompare b a ≤ 0;
  localeCompare_trans : ∀ a b c,
    localeCompare a b ≤ 0 → localeCompare b c ≤ 0 → localeCompare a c ≤ 0
}.

Module JS.

(** [!s] on a string: only the empty string is falsy. *)
Definition not (s : string) : bool := String.eqb s "".

(** [o || ''] where [o] is a property read: [undefined] and the empty
    string both give the empty string. *)
Definition or_empty (o : option string) : string :=
  match o with
  | Some v => if not v then "" else v
  | None => ""
  end.

(** [data || []] where [data] is an array or [null]. *)
Definition or_nil {A} (o : option (list A)) : list A :=
  match o with
  | Some l => l
  | None => []
  end.

(** [Array.prototype.includes] on an array of strings. *)
Definition includes (l : list string) (x : string) : bool :=
  existsb (String.eqb x) l.

(** [Array.prototype.sort(cmp)].  ECMAScript requires the sort to be
    stable; with a consistent comparator that fixes the result, which is
    computed here by a stable insertion: an element goes in front of the
    first later element it does not compare greater than. *)
Section Sort.
Context {A : Type} (cmp : A → A → Z).

Fixpoint insert_sorted (x : A) (l : list A) : list A :=
  match l with
  | [] => [x]
  | y :: l' => if cmp x y <=? 0 then x :: y :: l' else y :: insert_sorted x l'
  end.

Definition sort (l : list A) : list A := foldr insert_sorted [] l.
End Sort.

End JS.

(** ** Records of the two tables *)

(** A row of [shopping_items].  The [created_at] column only orders the
    rows of a fetch; the tables below are kept in creation order instead. *)
Record Item := mkItem {
  id : nat;
  name : string;
  category : string;
  needed : bool;
  bought : bool;
  user_id : string
}.

(** A row of [categories]. *)
Module Cat.
Record row := mk { name : string; user_id : string }.
End Cat.

Record Session := { session_user_id : string }.

(** ** Component state: the [useState] variables *)

Record State := mkState {
  items : list Item;
  categories : list string;
  newItemInputs : gmap string string;
  collapsedCategories : gset string;
  storeMode : bool;
  showAddCategory : bool;
  newCategoryName : string;
  loading : bool
}.

Definition initialState : State :=
  mkState [] [] ∅ ∅ false false "" true.

Definition setItems (v : list Item) (st : State) : State :=
  mkState v (categories st) (newItemInputs st) (collapsedCategories st)
          (storeMode st) (showAddCategory st) (newCategoryName st) (loading st).
Definition setCategories (v : list string) (st : State) : State :=
  mkState (items st) v (newItemInputs st) (collapsedCategories st)
          (storeMode st) (showAddCategory st) (newCategoryName st) (loading st).
Definition setNewItemInputs (v : gmap string string) (st : State) : State :=
  mkState (items st) (categories st) v (collapsedCategories st)
          (storeMode st) (showAddCategory st) (newCategoryName st) (loading st).
Definition setCollapsedCategories (v : gset string) (st : State) : State :=
  mkState (items st) (categories st) (newItemInputs st) v
          (storeMode st) (showAddCategory st) (newCategoryName st) (loading st).
Definition setStoreMode (v : bool) (st : State) : State :=
  mkState (items st) (categories st) (newItemInputs st) (collapsedCategories st)
          v (showAddCategory st) (newCategoryName st) (loading st).
Definition setShowAddCategory (v : bool) (st : State) : State :=
  mkState (items st) (categories st) (newItemInputs st) (collapsedCategories st)
          (storeMode st) v (newCategoryName st) (loading st).
Definition setNewCategoryName (v : string) (st : State) : State :=
  mkState (items st) (categories st) (newItemInputs st) (collapsedCategories st)
          (storeMode st) (showAddCategory st) v (loading st).
Definition setLoading (v : bool) (st : State) : State :=
  mkState (items st) (categories st) (newItemInputs st) (collapsedCategories st)
          (storeMode st) (showAddCategory st) (newCategoryName st) v.

(** The categories every user has. *)
Definition defaultCategories : list string :=
  ["Refrigerated items"; "Bread"; "Fruit/Veggie"; "Frozen"; "Bulk"; "Household items"].

(** The line [const allCategories = [...defaultCategories,
    ...userCategories.filter(cat => !defaultCategories.includes(cat))]]. *)
Definition allCategories (userCategories : list string) : list string :=
  defaultCategories ++
  List.filter (λ cat, negb (JS.includes defaultCategories cat)) userCategories.

(** ** Derived views *)

Section Views.
Context `{JSString}.

(** The comparator handed to [sort]. *)
Definition byName (a b : Item) : Z :=
  localeCompare (toLowerCase (name a)) (toLowerCase (name b)).

Definition getItemsByCategory (st : State) (category' : string) : list Item :=
  let filteredItems :=
    if storeMode st
    then List.filter (λ item, String.eqb (category item) category' && needed item) (items st)
    else List.filter (λ item, String.eqb (category item) category') (items st) in
  JS.sort byName filteredItems.

Definition getCategoryStats (st : State) (category' : string) : nat * nat :=
  let categoryItems := getItemsByCategory st category' in
  if storeMode st
  then (length (List.filter bought categoryItems), length categoryItems)
  else (length (List.filter needed categoryItems), length categoryItems).

Definition getNeededItemsCount (st : State) : nat :=
  length (List.filter (λ item, needed item && negb (bought item)) (items st)).

Definition getBoughtItemsCount (st : State) : nat :=
  length (List.filter (λ item, needed item && bought item) (items st)).

Definition visibleCategories (st : State) : list string :=
  List.filter
    (λ category',
       let categoryItems := getItemsByCategory st category' in
       (0 <? length categoryItems)%nat || negb (storeMode st))
    (categories st).
End Views.

(** The older copy of the component. *)
Module Legacy.
Definition defaultCategories : list string :=
  ["Refrigerated items"; "Bread"; "Fruit/Veg"; "Frozen"; "Bulk";
   "Household items"; "Amy"; "Dm"; "Bipa"].

Definition getItemsByCategory (st : State) (category' : string) : list Item :=
  if storeMode st
  then List.filter (λ item, String.eqb (category item) category' && needed item) (items st)
  else List.filter (λ item, String.eqb (category item) category') (items st).

Definition getCategoryStats (st : State) (category' : string) : nat * nat :=
  let categoryItems := getItemsByCategory st category' in
  if storeMode st
  then (length (List.filter bought categoryItems), length categoryItems)
  else (length (List.filter needed categoryItems), length categoryItems).

Definition visibleCategories (st : State) : list string :=
  List.filter
    (λ category',
       let categoryItems := getItemsByCategory st category' in
       (0 <? length categoryItems)%nat || negb (storeMode st))
    (categories st).

(** Its line [const allCategories = ...], over its own built-in names. *)
Definition allCategories (userCategories : list string) : list string :=
  defaultCategories ++
  List.filter (λ cat, negb (JS.includes defaultCategories cat)) userCategories.
End Legacy.

(** ** The hosted service

    The service is outside the repository; the component only relies on
    what its query builder promises: a [select] answers the rows that pass
    the [eq] filters, an [insert] adds a row, an [update] patches the rows
    that pass the filters, a [delete] removes them, and every call may
    instead report an error and change nothing. *)
Module DB.

(** The object handed to [update]: the columns it names are overwritten. *)
Record Patch := mkPatch { set_needed : option bool; set_bought : option bool }.

Definition patch (p : Patch) (item : Item) : Item :=
  mkItem (id item) (name item) (category item)
         (default (needed item) (set_needed p))
         (default (bought item) (set_bought p))
         (user_id item).

Record Remote := mkRemote {
  shopping_items : list Item;
  categories : list Cat.row
}.

(** The calls the component builds, one constructor per chain of
    [from(...)] and filters in the source. *)
Inductive Request :=
| SelectItems (uid : string)
| SelectCategories (uid : string)
| InsertCategory (row : Cat.row)
| InsertItem (name' category' : string) (needed' bought' : bool) (uid : string)
| UpdateItem (p : Patch) (id' : nat) (uid : string)
| UpdateItems (p : Patch) (uid : string)
| DeleteItem (id' : nat) (uid : string).

Definition owned_by (uid : string) (item : Item) : bool :=
  String.eqb (user_id item) uid.

Definition is_row (id' : nat) (uid : string) (item : Item) : bool :=
  Nat.eqb (id item) id' && owned_by uid item.

(** The primary key the service gives a new row. *)
Definition fresh_id (table : list Item) : nat :=
  S (foldr Nat.max 0%nat (map id table)).

Definition select_items (uid : string) (db : Remote) : list Item :=
  List.filter (owned_by uid) (shopping_items db).

Definition select_categories (uid : string) (db : Remote) : list Cat.row :=
  List.filter (λ row, String.eqb (Cat.user_id row) uid) (categories db).

(** The effect of a call that succeeds. *)
Definition exec (r : Request) (db : Remote) : Remote :=
  match r with
  | SelectItems _ | SelectCategories _ => db
  | InsertCategory row =>
      mkRemote (shopping_items db) (categories db ++ [row])
  | InsertItem name' category' needed' bought' uid =>
      mkRemote
        (shopping_items db ++
           [mkItem (fresh_id (shopping_items db)) name' category' needed' bought' uid])
        (categories db)
  | UpdateItem p id' uid =>
      mkRemote
        (map (λ item, if is_row id' uid item then patch p item else item)
             (shopping_items db))
        (categories db)
  | UpdateItems p uid =>
      mkRemote
        (map (λ item, if owned_by uid item then patch p item else item)
             (shopping_items db))
        (categories db)
  | DeleteItem id' uid =>
      mkRemote
        (List.filter (λ item, negb (is_row id' uid item)) (shopping_items db))
        (categories db)
  end.

End DB.

Inductive RemoteError := remote_error.

(** What an awaited call resolves to: [{ data, error }]. *)
Record Response (D : Type) := mkResponse {
  data : option D;
  error : option RemoteError
}.
Arguments mkResponse {D}.
Arguments data {D}.
Arguments error {D}.

(** Everything outside the component: the service's tables, which of the
    coming calls it will refuse (the head is the next call, [true] means
    refused, an exhausted list means no more refusals), the calls sent so
    far, and the lines written with [console.error]. *)
Record World := mkWorld {
  remote : DB.Remote;
  outages : list bool;
  sent : list DB.Request;
  console : list string
}.

Record Sys := mkSys { ui : State; world : World }.

(** ** The monad of the handlers *)

Inductive Completion (A : Type) :=
| Normal (a : A)
| Throw (e : RemoteError).
Arguments Normal {A}.
Arguments Throw {A}.

Definition Async (A : Type) : Type := Sys → Completion A * Sys.

Definition ret {A} (a : A) : Async A := λ s, (Normal a, s).

Definition bind {A B} (m : Async A) (k : A → Async B) : Async B :=
  λ s, match m s with
       | (Normal a, s') => k a s'
       | (Throw e, s') => (Throw e, s')
       end.

Definition throw {A} (e : RemoteError) : Async A := λ s, (Throw e, s).

Definition try_catch {A} (body : Async A) (handler : RemoteError → Async A) : Async A :=
  λ s, match body s with
       | (Normal a, s') => (Normal a, s')
       | (Throw e, s') => handler e s'
       end.

Declare Scope async_scope.
Delimit Scope async_scope with async.
Notation "x <- m ;; k" := (bind m (λ x, k))
  (at level 100, m at next level, right associativity) : async_scope.
Notation "m ;; k" := (bind m (λ _, k))
  (at level 100, right associativity) : async_scope.

(** A state setter of [useState]. *)
Definition set (f : State → State) : Async unit :=
  λ s, (Normal tt, mkSys (f (ui s)) (world s)).

Definition console_error (msg : string) : Async unit :=
  λ s, let w := world s in
       (Normal tt,
        mkSys (ui s) (mkWorld (remote w) (outages w) (sent w) (console w ++ [msg]))).

(** [await] of a call to the service. *)
Definition call {D} (r : DB.Request) (answer : DB.Remote → option D) : Async (Response D) :=
  λ s, let w := world s in
       let refused := match outages w with b :: _ => b | [] => false end in
       if refused
       then (Normal (mkResponse None (Some remote_error)),
             mkSys (ui s) (mkWorld (remote w) (tail (outages w)) (sent w ++ [r]) (console w)))
       else (Normal (mkResponse (answer (remote w)) None),
             mkSys (ui s)
                   (mkWorld (DB.exec r (remote w)) (tail (outages w)) (sent w ++ [r]) (console w))).

(** An event handler runs in the closure of the last render: it reads the
    state variables as they were when it was called. *)
Definition dispatch (handler : State → Async unit) (s : Sys) : Sys :=
  (handler (ui s) s).2.

(** A handler called from an older render: it reads the state variables of
    that render, [st], whatever the component holds by now.  This is a
    second click that comes before the re-render the first click leads
    to: both run in one closure.  The second handler is run here after the
    first has finished; for two toggles from one closure, which write the
    same value, the tables and the list fetched last are the same however
    their calls interleave. *)
Definition dispatch_from (st : State) (handler : State → Async unit) (s : Sys) : Sys :=
  (handler st s).2.

(** ** The handlers *)

Section Component.
Context `{JSString} (session : Session).
Local Open Scope async_scope.

Let uid : string := session_user_id session.

Definition fetchItems : Async unit :=
  try_catch
    (r <- call (DB.SelectItems uid) (λ db, Some (DB.select_items uid db));;
     match error r with
     | Some e => throw e
     | None => set (setItems (JS.or_nil (data r)))
     end)
    (λ e, console_error "Error fetching items:").

Definition fetchCategories : Async unit :=
  try_catch
    (r <- call (DB.SelectCategories uid) (λ db, Some (DB.select_categories uid db));;
     match error r with
     | Some e => throw e
     | None =>
         let userCategories := JS.or_nil (map Cat.name <$> data r) in
         set (setCategories (allCategories userCategories))
     end)
    (λ e, console_error "Error fetching categories:";;
          set (setCategories defaultCategories)).

Definition addCategory (st : State) : Async unit :=
  if JS.not (trim (newCategoryName st))
     || JS.includes (categories st) (trim (newCategoryName st))
  then ret tt
  else
    try_catch
      (r <- call (D := unit)
              (DB.InsertCategory (Cat.mk (trim (newCategoryName st)) uid))
              (λ _, None);;
       match error r with
       | Some e => throw e
       | None =>
           set (setNewCategoryName "");;
           set (setShowAddCategory false);;
           fetchCategories
       end)
      (λ e, console_error "Error adding category:").

(** [newItemInputs] is an object used as a map from category to text; the
    read [newItemInputs[category]] is modelled on its own properties.  (For
    a category named like a member every object inherits, and no text
    typed, the source fails on [trim] before any call: nothing sent,
    nothing changed, as for the empty text here.) *)
Definition addItem (category' : string) (st : State) : Async unit :=
  let inputValue := JS.or_empty (newItemInputs st !! category') in
  if JS.not (trim inputValue)
  then ret tt
  else
    try_catch
      (r <- call (D := unit)
              (DB.InsertItem (trim inputValue) category' false false uid)
              (λ _, None);;
       match error r with
       | Some e => throw e
       | None =>
           set (setNewItemInputs (<[category' := ""]> (newItemInputs st)));;
           fetchItems
       end)
      (λ e, console_error "Error adding item:").

Definition updateNewItemInput (category' value : string) (st : State) : Async unit :=
  set (setNewItemInputs (<[category' := value]> (newItemInputs st))).

Definition toggleNeeded (id' : nat) (st : State) : Async unit :=
  match find (λ item, Nat.eqb (id item) id') (items st) with
  | None => ret tt
  | Some item =>
      try_catch
        (r <- call (D := unit)
                (DB.UpdateItem (DB.mkPatch (Some (negb (needed item))) None) id' uid)
                (λ _, None);;
         match error r with
         | Some e => throw e
         | None => fetchItems
         end)
        (λ e, console_error "Error updating item:")
  end.

Definition toggleBought (id' : nat) (st : State) : Async unit :=
  match find (λ item, Nat.eqb (id item) id') (items st) with
  | None => ret tt
  | Some item =>
      try_catch
        (r <- call (D := unit)
                (DB.UpdateItem (DB.mkPatch None (Some (negb (bought item)))) id' uid)
                (λ _, None);;
         match error r with
         | Some e => throw e
         | None => fetchItems
         end)
        (λ e, console_error "Error updating item:")
  end.

Definition deleteItem (id' : nat) (st : State) : Async unit :=
  try_catch
    (r <- call (D := unit) (DB.DeleteItem id' uid) (λ _, None);;
     match error r with
     | Some e => throw e
     | None => fetchItems
     end)
    (λ e, console_error "Error deleting item:").

Definition resetShopping (st : State) : Async unit :=
  try_catch
    (r <- call (D := unit)
            (DB.UpdateItems (DB.mkPatch (Some false) (Some false)) uid)
            (λ _, None);;
     match error r with
     | Some e => throw e
     | None =>
         set (setStoreMode false);;
         fetchItems
     end)
    (λ e, console_error "Error resetting shopping:").

Definition toggleCategory (category' : string) (st : State) : Async unit :=
  let newCollapsed :=
    if decide (category' ∈ collapsedCategories st)
    then collapsedCategories st ∖ {[category']}
    else collapsedCategories st ∪ {[category']} in
  set (setCollapsedCategories newCollapsed).

End Component.

(** ** Mounting and the controls of the screen *)

Section Screen.
Context `{JSString} (session : Session).
Local Open Scope async_scope.

(** The first effect: [if (session?.user?.id) initializeData()].  The two
    fetches of [Promise.all] are started in this order and write different
    state variables; they are run here one after the other. *)
Definition initializeData : Async unit :=
  set (setLoading true);;
  fetchItems session;;
  fetchCategories session;;
  set (setLoading false).

Definition mount : Async unit :=
  if JS.not (session_user_id session) then ret tt else initializeData.

(** The mode button: [onClick={() => setStoreMode(!storeMode)}]. *)
Definition toggleStoreMode (st : State) : Async unit :=
  set (setStoreMode (negb (storeMode st))).

(** The two buttons of an item row:
    [onClick={() => storeMode ? toggleBought(item.id) : toggleNeeded(item.id)}]. *)
Definition clickItem (item : Item) (st : State) : Async unit :=
  if storeMode st
  then toggleBought session (id item) st
  else toggleNeeded session (id item) st.

(** The item rows of the main render: one panel per visible category, and
    in a panel that is not collapsed one row per item of
    [getItemsByCategory]. *)
Definition shownItems (st : State) : list Item :=
  flat_map
    (λ category',
       let categoryItems := getItemsByCategory st category' in
       let isCollapsed := bool_decide (category' ∈ collapsedCategories st) in
       if negb isCollapsed then categoryItems else [])
    (visibleCategories st).

(** The item rows the component returns: none from the early return
    [if (loading) return ...], else those of the main render. *)
Definition screenItems (st : State) : list Item :=
  if loading st then [] else shownItems st.

End Screen.

(** ** Vocabulary of the statements *)

(** Whether the service refuses the [n]-th call from now. *)
Definition refused (n : nat) (s : Sys) : bool := nth n (outages (world s)) false.

(** The world after one more call. *)
Definition called (r : DB.Request) (s : Sys) : World :=
  let w := world s in
  mkWorld (if refused 0 s then remote w else DB.exec r (remote w))
          (tail (outages w)) (sent w ++ [r]) (console w).

Definition logged (msg : string) (w : World) : World :=
  mkWorld (remote w) (outages w) (sent w) (console w ++ [msg]).

Definition cleared (item : Item) : Prop := needed item = false ∧ bought item = false.

(** The members every object inherits from [Object.prototype] (ECMAScript,
    with its Annex B).  Read as a property of [newItemInputs], such a name
    gives a function or an object unless the object has a property of its
    own under that name. *)
Definition object_prototype_keys : list string :=
  ["constructor"; "hasOwnProperty"; "isPrototypeOf"; "propertyIsEnumerable";
   "toLocaleString"; "toString"; "valueOf"; "__proto__";
   "__defineGetter__"; "__defineSetter__"; "__lookupGetter__"; "__lookupSetter__"].

(** A call whose filter or row names the user [uid]. *)
Definition scoped (uid : string) (r : DB.Request) : Prop :=
  match r with
  | DB.SelectItems u | DB.SelectCategories u
  | DB.InsertItem _ _ _ _ u | DB.UpdateItem _ _ u
  | DB.UpdateItems _ u | DB.DeleteItem _ u => u = uid
  | DB.InsertCategory row => Cat.user_id row = uid
  end.

(** From [s] to [s'] one call [r] was sent and one line [msg] logged, and
    neither the component nor the tables changed. *)
Definition only_logged (r : DB.Request) (msg : string) (s s' : Sys) : Prop :=
  ui s' = ui s ∧
  remote (world s') = remote (world s) ∧
  sent (world s') = (sent (world s) ++ [r])%list ∧
  console (world s') = (console (world s) ++ [msg])%list.

(** The rows of the other users. *)
Definition foreign_items (uid : string) (db : DB.Remote) : list Item :=
  List.filter (λ item, negb (DB.owned_by uid item)) (DB.shopping_items db).

Definition foreign_categories (uid : string) (db : DB.Remote) : list Cat.row :=
  List.filter (λ row, negb (String.eqb (Cat.user_id row) uid)) (DB.categories db).

(** The rows of the other users are what they were. *)
Definition foreign_kept (uid : string) (s s' : Sys) : Prop :=
  foreign_items uid (remote (world s')) = foreign_items uid (remote (world s)) ∧
  foreign_categories uid (remote (world s')) = foreign_categories uid (remote (world s)).

Definition with_needed (b : bool) (item : Item) : Item :=
  mkItem (id item) (name item) (category item) b (bought item) (user_id item).

Definition with_bought (b : bool) (item : Item) : Item :=
  mkItem (id item) (name item) (category item) (needed item) b (user_id item).

(** How many items of a list are in category [c] and pass [p]. *)
Definition count_in (c : string) (p : Item → bool) (l : list Item) : nat :=
  length (List.filter (λ item, String.eqb (category item) c && p item) l).

(** Moving every item to another category. *)
Definition recategorise (f : Item → string) (item : Item) : Item :=
  mkItem (id item) (name item) (f item) (needed item) (bought item) (user_id item).

(** ** A concrete platform

    One implementation of the string methods, exact on 7-bit text: [trim]
    strips the ASCII white space and line terminators, [toLowerCase] maps
    [A]-[Z] to [a]-[z], and [localeCompare] orders by code unit. *)
Module Ascii7.

Definition is_space (c : ascii) : bool :=
  let n := N_of_ascii c in
  ((9 <=? n) && (n <=? 13) || (n =? 32))%N.

Fixpoint trimStart (s : string) : string :=
  match s with
  | String c s' => if is_space c then trimStart s' else s
  | EmptyString => EmptyString
  end.

Fixpoint reverse (acc s : string) : string :=
  match s with
  | String c s' => reverse (String c acc) s'
  | EmptyString => acc
  end.

Definition trim (s : string) : string :=
  reverse "" (trimStart (reverse "" (trimStart s))).

Definition lower (c : ascii) : ascii :=
  let n := N_of_ascii c in
  if ((65 <=? n) && (n <=? 90))%N then ascii_of_N (n + 32) else c.

Fixpoint toLowerCase (s : string) : string :=
  match s with
  | String c s' => String (lower c) (toLowerCase s')
  | EmptyString => EmptyString
  end.

Fixpoint compare_units (a b : string) : comparison :=
  match a, b with
  | EmptyString, EmptyString => Eq
  | EmptyString, String _ _ => Lt
  | String _ _, EmptyString => Gt
  | String x a', String y b' =>
      match (N_of_ascii x ?= N_of_ascii y)%N with
      | Eq => compare_units a' b'
      | o => o
      end
  end.

Definition localeCompare (a b : string) : Z :=
  match compare_units a b with
  | Lt => -1
  | Eq => 0
  | Gt => 1
  end.

Definition platform : JSString :=
  Build_JSString trim toLowerCase localeCompare.

End Ascii7.

(** ** Sample data *)

Definition alice : Session := {| session_user_id := "alice" |}.
Definition milk : Item := mkItem 1 "Milk" "Dairy" true false "alice".
Definition store_trip (outs : list bool) : Sys :=
  mkSys (mkState [milk] defaultCategories ∅ ∅ true false "" false)
        (mkWorld (DB.mkRemote [milk] []) outs [] []).
Definition apple : Item := mkItem 3 "Apple" "Fruit/Veggie" true true "alice".
Definition banana : Item := mkItem 2 "banana" "Fruit/Veggie" false false "alice".
Definition bob's_rice : Item := mkItem 4 "Rice" "Bulk" true false "bob".

(** A plan-mode screen in step with the service. *)
Definition planning (outs : list bool) : Sys :=
  mkSys (mkState [milk; banana; apple] defaultCategories
                 {[ "Bread" := " Rye " ]} ∅ false true " Snacks " false)
        (mkWorld (DB.mkRemote [milk; banana; apple; bob's_rice] []) outs [] []).

(** A store-mode screen in step with the service, one panel collapsed. *)
Definition aisle (outs : list bool) : Sys :=
  mkSys (mkState [banana; apple] defaultCategories ∅ {[ "Bulk" ]} true false "" false)
        (mkWorld (DB.mkRemote [banana; apple; bob's_rice] []) outs [] []).

(** The service holding the custom categories [names] of the user. *)
Definition with_categories (names : list string) : Sys :=
  mkSys initialState
        (mkWorld (DB.mkRemote [] (map (λ n, Cat.mk n "alice") names)) [] [] []).

(** * Properties *)

(** ** The stable sort *)

Section SortFacts.
Context {A : Type} (cmp : A → A → Z).

Lemma insert_sorted_Permutation (x : A) (l : list A) :
  JS.insert_sorted cmp x l ≡ₚ x :: l.
Proof.
  induction l as [|y l IH]; simpl; [done|].
  destruct (cmp x y <=? 0); [done|].
  rewrite IH. apply Permutation_swap.
Qed.

Lemma sort_Permutation (l : list A) : JS.sort cmp l ≡ₚ l.
Proof.
  induction l as [|x l IH]; simpl; [done|].
  rewrite insert_sorted_Permutation. by rewrite IH.
Qed.

Lemma sort_length (l : list A) : length (JS.sort cmp l) = length l.
Proof. apply Permutation_length, sort_Permutation. Qed.

Hypothesis cmp_total : ∀ a b, 0 < cmp a b → cmp b a ≤ 0.
Hypothesis cmp_trans : ∀ a b c, cmp a b ≤ 0 → cmp b c ≤ 0 → cmp a c ≤ 0.

Local Abbreviation precedes := (λ a b : A, cmp a b ≤ 0).

Lemma insert_sorted_StronglySorted (x : A) (l : list A) :
  StronglySorted precedes l → StronglySorted precedes (JS.insert_sorted cmp x l).
Proof.
  induction 1 as [|y l Hl IH Hy]; simpl.
  - repeat constructor.
  - destruct (Z.leb_spec (cmp x y) 0) as [Hle|Hgt].
    + constructor; [by constructor|].
      constructor; [done|].
      eapply Forall_impl; [exact Hy|]. intros z Hz. by eapply cmp_trans.
    + constructor; [done|].
      rewrite insert_sorted_Permutation. constructor; [|done].
      by apply cmp_total.
Qed.

Lemma sort_StronglySorted (l : list A) : StronglySorted precedes (JS.sort cmp l).
Proof.
  induction l as [|x l IH]; simpl; [constructor|].
  by apply insert_sorted_StronglySorted.
Qed.

(** In front of a sorted list whose elements all follow [x], the insertion
    stops at once. *)
Lemma insert_sorted_first (x : A) (l : list A) :
  Forall (precedes x) l → JS.insert_sorted cmp x l = x :: l.
Proof.
  destruct 1 as [|y l Hy _]; simpl; [done|].
  by destruct (Z.leb_spec (cmp x y) 0); [|lia].
Qed.

Lemma filter_insert_sorted (p : A → bool) (x : A) (l : list A) :
  StronglySorted precedes l →
  List.filter p (JS.insert_sorted cmp x l) =
  if p x then JS.insert_sorted cmp x (List.filter p l) else List.filter p l.
Proof.
  induction 1 as [|y l Hl IH Hy]; simpl.
  - by destruct (p x).
  - destruct (Z.leb_spec (cmp x y) 0) as [Hle|Hgt]; simpl.
    + destruct (p x) eqn:Hx; [|done].
      change (x :: List.filter p (y :: l) =
              JS.insert_sorted cmp x (List.filter p (y :: l))).
      symmetry. apply insert_sorted_first, List.Forall_forall.
      intros z [-> | Hz] %filter_In %proj1; [done|].
      rewrite List.Forall_forall in Hy. eapply cmp_trans; [exact Hle|]. by apply Hy.
    + rewrite IH. destruct (p y) eqn:Hpy, (p x) eqn:Hx; simpl; try done.
      by destruct (Z.leb_spec (cmp x y) 0); [lia|].
Qed.

(** Filtering commutes with the stable sort. *)
Lemma filter_sort (p : A → bool) (l : list A) :
  List.filter p (JS.sort cmp l) = JS.sort cmp (List.filter p l).
Proof.
  induction l as [|x l IH]; simpl; [done|].
  rewrite filter_insert_sorted by apply sort_StronglySorted.
  rewrite IH. by destruct (p x).
Qed.
End SortFacts.

(** ** The concrete platform is a consistent comparator *)

Lemma compare_units_antisym (a b : string) :
  Ascii7.compare_units b a = CompOpp (Ascii7.compare_units a b).
Proof.
  revert b. induction a as [|x a IH]; intros [|y b]; simpl; try done.
  rewrite (N.compare_antisym (N_of_ascii x)).
  destruct (N_of_ascii x ?= N_of_ascii y)%N; simpl; auto.
Qed.

Lemma compare_units_trans (a b c : string) :
  Ascii7.compare_units a b ≠ Gt → Ascii7.compare_units b c ≠ Gt →
  Ascii7.compare_units a c ≠ Gt.
Proof.
  revert b c. induction a as [|x a IH]; intros [|y b] [|z c]; simpl; try done.
  destruct (N.compare_spec (N_of_ascii x) (N_of_ascii y)) as [Hxy|Hxy|Hxy],
           (N.compare_spec (N_of_ascii y) (N_of_ascii z)) as [Hyz|Hyz|Hyz],
           (N.compare_spec (N_of_ascii x) (N_of_ascii z)) as [Hxz|Hxz|Hxz];
    try done; try lia.
  apply IH.
Qed.

Lemma Ascii7_collation : @Collation Ascii7.platform.
Proof.
  split; simpl; unfold Ascii7.localeCompare.
  - intros a b. rewrite (compare_units_antisym a b).
    by destruct (Ascii7.compare_units a b).
  - intros a b c Hab Hbc.
    pose proof (compare_units_trans a b c) as Hac.
    destruct (Ascii7.compare_units a b), (Ascii7.compare_units b c),
             (Ascii7.compare_units a c); try done; exfalso; by apply Hac.
Qed.

(** ** Derived views *)

Section ViewFacts.
Context `{JSString}.

Lemma filter_category_eq (c : string) (l : list Item) :
  List.filter (λ item, String.eqb (category item) c) l =
  filter (λ item, category item = c) l.
Proof.
  induction l as [|x l IH]; simpl; [done|].
  rewrite filter_cons, IH.
  destruct (String.eqb_spec (category x) c); by case_decide.
Qed.

Lemma filter_bool_eq {A} (p : A → bool) (l : list A) :
  List.filter p l = filter (λ x, p x = true) l.
Proof.
  induction l as [|x l IH]; simpl; [done|].
  rewrite filter_cons, IH. destruct (p x); by case_decide.
Qed.

Lemma filter_and {A} (p q : A → bool) (l : list A) :
  List.filter (λ x, p x && q x) l = List.filter q (List.filter p l).
Proof.
  induction l as [|x l IH]; simpl; [done|].
  destruct (p x); simpl; [|done]. by rewrite IH.
Qed.

(** C1. In plan mode [getItemsByCategory c] holds exactly the items whose
    category is [c], each as often as the item list does, and it is
    sorted by lower-cased name: every element compares at most every
    later one. *)
Theorem getItemsByCategory_plan `{!Collation} (st : State) (c : string) :
  storeMode st = false →
  getItemsByCategory st c ≡ₚ filter (λ item, category item = c) (items st) ∧
  StronglySorted
    (λ a b, localeCompare (toLowerCase (name a)) (toLowerCase (name b)) ≤ 0)
    (getItemsByCategory st c).
Proof.
  intros Hplan. unfold getItemsByCategory. rewrite Hplan. split.
  - rewrite sort_Permutation. by rewrite filter_category_eq.
  - apply (sort_StronglySorted byName); unfold byName.
    + intros a b. apply localeCompare_total.
    + intros a b d. apply localeCompare_trans.
Qed.

(** C9. The store-mode list of a category is the plan-mode list of that
    category with the items that are not needed left out: the same
    elements in the same order, hence a sublist. *)
Theorem getItemsByCategory_store `{!Collation} (st : State) (c : string) :
  getItemsByCategory (setStoreMode true st) c =
    filter (λ item, needed item = true) (getItemsByCategory (setStoreMode false st) c) ∧
  sublist (getItemsByCategory (setStoreMode true st) c)
          (getItemsByCategory (setStoreMode false st) c).
Proof.
  assert (getItemsByCategory (setStoreMode true st) c =
          filter (λ item, needed item = true)
                 (getItemsByCategory (setStoreMode false st) c)) as Heq.
  { unfold getItemsByCategory; simpl.
    rewrite filter_and, <- filter_bool_eq. symmetry.
    apply filter_sort; unfold byName.
    - intros a b. apply localeCompare_total.
    - intros a b d. apply localeCompare_trans. }
  split; [done|]. rewrite Heq. apply sublist_filter.
Qed.
End ViewFacts.

Section CountFacts.
Context `{JSString}.

Lemma filter_reflect {A} (f : A → bool) (P : A → Prop) `{!∀ x, Decision (P x)}
    (l : list A) :
  (∀ x, f x = true ↔ P x) → List.filter f l = filter P l.
Proof.
  intros Hf. induction l as [|x l IH]; simpl; [done|].
  rewrite filter_cons, IH. pose proof (Hf x) as [Hx1 Hx2].
  destruct (f x); case_decide; auto; [by exfalso; auto|by discriminate Hx2].
Qed.

Lemma filter_nonempty {A} (f : A → bool) (l : list A) :
  (0 <? length (List.filter f l))%nat = true ↔ Exists (λ x, f x = true) l.
Proof.
  rewrite Nat.ltb_lt, Exists_exists. split.
  - destruct (List.filter f l) as [|x l'] eqn:Hl; simpl; [lia|]. intros _.
    exists x. rewrite list_elem_of_In, <- (filter_In f), Hl. by left.
  - intros (x & Hx & Hfx).
    assert (In x (List.filter f l)) as Hin.
    { apply filter_In. split; [by apply list_elem_of_In|done]. }
    destruct (List.filter f l); simpl in *; [done|lia].
Qed.

(** C3. In store mode the visible categories are the categories that have
    at least one needed item, in the order of the category list; in plan
    mode they are the whole category list; and in store mode with no
    needed item at all there is none. *)
Theorem visibleCategories_by_mode (st : State) :
  (storeMode st = true →
     visibleCategories st =
       filter (λ c, Exists (λ item, category item = c ∧ needed item = true) (items st))
              (categories st)) ∧
  (storeMode st = false → visibleCategories st = categories st) ∧
  (storeMode st = true → Forall (λ item, needed item = false) (items st) →
     visibleCategories st = []).
Proof.
  assert (storeMode st = true →
     visibleCategories st =
       filter (λ c, Exists (λ item, category item = c ∧ needed item = true) (items st))
              (categories st)) as Hstore.
  { intros Hmode. unfold visibleCategories, getItemsByCategory. rewrite Hmode.
    apply filter_reflect. intros c.
    rewrite orb_false_r, sort_length, filter_nonempty.
    apply Exists_proper; [|done]. intros item.
    rewrite andb_true_iff.
    destruct (String.eqb_spec (category item) c); intuition congruence. }
  split; [done|]. split.
  - intros Hmode. clear Hstore. unfold visibleCategories. rewrite Hmode. simpl.
    induction (categories st) as [|c l IH]; simpl; [done|].
    rewrite orb_true_r. by f_equal.
  - intros Hmode Hnone. rewrite Hstore by done. clear Hstore.
    induction (categories st) as [|c l IH]; [done|].
    rewrite filter_cons, IH. case_decide as Hex; [|done].
    apply Exists_exists in Hex as (item & Hin & _ & Hneeded).
    rewrite Forall_forall in Hnone. specialize (Hnone _ Hin). congruence.
Qed.

Lemma filter_flags_recategorise (p : bool → bool → bool) (f : Item → string)
    (l : list Item) :
  length (List.filter (λ item, p (needed item) (bought item)) (map (recategorise f) l)) =
  length (List.filter (λ item, p (needed item) (bought item)) l).
Proof.
  induction l as [|x l IH]; simpl; [done|].
  destruct (p (needed x) (bought x)); simpl; by rewrite IH.
Qed.

(** C4. [getNeededItemsCount] counts the items that are needed and not
    bought, [getBoughtItemsCount] those that are needed and bought; the
    two add up to the number of needed items; and neither changes with
    the mode or with the categories the items are in. *)
Theorem needed_and_bought_counts (st : State) :
  getNeededItemsCount st =
    length (filter (λ item, needed item = true ∧ bought item = false) (items st)) ∧
  getBoughtItemsCount st =
    length (filter (λ item, needed item = true ∧ bought item = true) (items st)) ∧
  (getNeededItemsCount st + getBoughtItemsCount st)%nat =
    length (filter (λ item, needed item = true) (items st)) ∧
  (∀ mode, getNeededItemsCount (setStoreMode mode st) = getNeededItemsCount st ∧
           getBoughtItemsCount (setStoreMode mode st) = getBoughtItemsCount st) ∧
  (∀ f, getNeededItemsCount (setItems (map (recategorise f) (items st)) st) =
          getNeededItemsCount st ∧
        getBoughtItemsCount (setItems (map (recategorise f) (items st)) st) =
          getBoughtItemsCount st).
Proof.
  unfold getNeededItemsCount, getBoughtItemsCount. repeat split.
  - f_equal. apply filter_reflect. intros item.
    destruct (needed item), (bought item); simpl; intuition congruence.
  - f_equal. apply filter_reflect. intros item.
    destruct (needed item), (bought item); simpl; intuition congruence.
  - induction (items st) as [|x l IH]; simpl; [done|].
    rewrite filter_cons.
    destruct (needed x), (bought x); case_decide; simpl in *; try done; lia.
  - apply (filter_flags_recategorise (λ n b, n && negb b)).
  - apply (filter_flags_recategorise (λ n b, n && b)).
Qed.
End CountFacts.

(** ** Handlers *)

Section HandlerFacts.
Context `{JSString} (session : Session).

Local Abbreviation uid := (session_user_id session).

Lemma call_accepted {D} (r : DB.Request) (answer : DB.Remote → option D) (s : Sys) :
  refused 0 s = false →
  call r answer s =
    (Normal (mkResponse (answer (remote (world s))) None), mkSys (ui s) (called r s)).
Proof.
  unfold call, called, refused. destruct s as [st [db [|[] outs] snt con]]; by simpl.
Qed.

Lemma call_refused {D} (r : DB.Request) (answer : DB.Remote → option D) (s : Sys) :
  refused 0 s = true →
  call r answer s =
    (Normal (mkResponse None (Some remote_error)), mkSys (ui s) (called r s)).
Proof.
  unfold call, called, refused. destruct s as [st [db [|[] outs] snt con]]; by simpl.
Qed.

Lemma refused_called (n : nat) (r : DB.Request) (st : State) (s : Sys) :
  refused n (mkSys st (called r s)) = refused (S n) s.
Proof.
  unfold refused, called; simpl. destruct (outages (world s)); simpl; [|done].
  by destruct n.
Qed.

Lemma remote_called_accepted (r : DB.Request) (s : Sys) :
  refused 0 s = false → remote (called r s) = DB.exec r (remote (world s)).
Proof. intros Hok. unfold called; simpl. by rewrite Hok. Qed.

Lemma remote_called_refused (r : DB.Request) (s : Sys) :
  refused 0 s = true → remote (called r s) = remote (world s).
Proof. intros Hno. unfold called; simpl. by rewrite Hno. Qed.

Lemma remote_called_select (s : Sys) :
  remote (called (DB.SelectItems uid) s) = remote (world s).
Proof. unfold called; simpl. by destruct (refused 0 s). Qed.

Lemma owned_by_true (item : Item) :
  DB.owned_by uid item = true ↔ user_id item = uid.
Proof. apply String.eqb_eq. Qed.

Lemma select_items_filter (db : DB.Remote) :
  DB.select_items uid db = filter (λ item, user_id item = uid) (DB.shopping_items db).
Proof. apply filter_reflect, owned_by_true. Qed.

Lemma fetchItems_accepted (s : Sys) :
  refused 0 s = false →
  fetchItems session s =
    (Normal tt,
     mkSys (setItems (DB.select_items uid (remote (world s))) (ui s))
           (called (DB.SelectItems uid) s)).
Proof.
  intros Hok. unfold fetchItems, try_catch, bind. by rewrite call_accepted.
Qed.

Lemma fetchItems_refused (s : Sys) :
  refused 0 s = true →
  fetchItems session s =
    (Normal tt,
     mkSys (ui s) (logged "Error fetching items:" (called (DB.SelectItems uid) s))).
Proof.
  intros Hno. unfold fetchItems, try_catch, bind. by rewrite call_refused.
Qed.

(** [fetchItems] catches what it throws. *)
Lemma fetchItems_normal (s : Sys) : (fetchItems session s).1 = Normal tt.
Proof.
  destruct (refused 0 s) eqn:Hcall.
  - by rewrite fetchItems_refused.
  - by rewrite fetchItems_accepted.
Qed.

Lemma find_id_None (id' : nat) (l : list Item) :
  Forall (λ item, id item ≠ id') l → find (λ item, Nat.eqb (id item) id') l = None.
Proof.
  induction 1 as [|x l Hx _ IH]; simpl; [done|].
  by destruct (Nat.eqb_spec (id x) id').
Qed.

(** C10. With an id that no item of the list has, [toggleNeeded] and
    [toggleBought] return at once: no call is sent, and the state of the
    component and of the service is what it was. *)
Theorem toggle_unknown_id (s : Sys) (id' : nat) :
  Forall (λ item, id item ≠ id') (items (ui s)) →
  toggleNeeded session id' (ui s) s = (Normal tt, s) ∧
  toggleBought session id' (ui s) s = (Normal tt, s) ∧
  sent (world (dispatch (toggleNeeded session id') s)) = sent (world s) ∧
  sent (world (dispatch (toggleBought session id') s)) = sent (world s).
Proof.
  intros Hid. unfold dispatch, toggleNeeded, toggleBought.
  by rewrite (find_id_None _ _ Hid).
Qed.

Lemma resetShopping_accepted_run (s : Sys) :
  refused 0 s = false →
  dispatch (resetShopping session) s =
    (fetchItems session
       (mkSys (setStoreMode false (ui s))
              (called (DB.UpdateItems (DB.mkPatch (Some false) (Some false)) uid) s))).2.
Proof.
  intros Hok. unfold dispatch, resetShopping, try_catch, bind.
  rewrite call_accepted by done. simpl.
  pose proof (fetchItems_normal
    (mkSys (setStoreMode false (ui s))
           (called (DB.UpdateItems (DB.mkPatch (Some false) (Some false)) uid) s)))
    as Hnormal.
  destruct (fetchItems session _) as [c s']. simpl in Hnormal. by subst c.
Qed.

(** What [resetShopping] does when the service accepts the update. *)
Lemma resetShopping_accepted_rows (s : Sys) :
  refused 0 s = false →
  let s' := dispatch (resetShopping session) s in
  DB.shopping_items (remote (world s')) =
    map (λ item, if decide (user_id item = uid)
                 then mkItem (id item) (name item) (category item) false false (user_id item)
                 else item)
        (DB.shopping_items (remote (world s))) ∧
  Forall (λ item, user_id item = uid → cleared item)
         (DB.shopping_items (remote (world s'))) ∧
  storeMode (ui s') = false ∧
  (refused 1 s = false →
     items (ui s') =
       filter (λ item, user_id item = uid) (DB.shopping_items (remote (world s'))) ∧
     Forall cleared (items (ui s'))).
Proof.
  intros Hok s'.
  assert (DB.shopping_items (remote (world s')) =
    map (λ item, if decide (user_id item = uid)
                 then mkItem (id item) (name item) (category item) false false (user_id item)
                 else item)
        (DB.shopping_items (remote (world s)))) as Hrows.
  { assert (remote (world s') =
            DB.exec (DB.UpdateItems (DB.mkPatch (Some false) (Some false)) uid)
                    (remote (world s))) as ->.
    { subst s'. rewrite resetShopping_accepted_run by done.
      destruct (refused 1 s) eqn:Hfetch.
      - rewrite fetchItems_refused by by rewrite refused_called.
        unfold logged; cbn [snd world remote].
        rewrite remote_called_select; cbn [world].
        by rewrite remote_called_accepted.
      - rewrite fetchItems_accepted by by rewrite refused_called.
        cbn [snd world remote].
        rewrite remote_called_select; cbn [world].
        by rewrite remote_called_accepted. }
    simpl. apply map_ext. intros item. pose proof (owned_by_true item) as Hown.
    destruct (DB.owned_by uid item); case_decide; intuition congruence. }
  assert (Forall (λ item, user_id item = uid → cleared item)
                 (DB.shopping_items (remote (world s')))) as Hcleared.
  { rewrite Hrows. apply Forall_map, Forall_forall. intros item _.
    by case_decide. }
  split; [done|]. split; [done|]. split.
  - subst s'. rewrite resetShopping_accepted_run by done.
    destruct (refused 1 s) eqn:Hfetch.
    + by rewrite fetchItems_refused by by rewrite refused_called.
    + by rewrite fetchItems_accepted by by rewrite refused_called.
  - intros Hfetch.
    assert (items (ui s') =
            filter (λ item, user_id item = uid) (DB.shopping_items (remote (world s'))))
      as Hitems.
    { subst s'. rewrite resetShopping_accepted_run by done.
      rewrite fetchItems_accepted by by rewrite refused_called.
      cbn [snd ui world items setItems]. rewrite remote_called_select.
      apply select_items_filter. }
    split; [done|]. rewrite Hitems.
    rewrite Forall_forall in Hcleared. apply Forall_forall. intros item Hin.
    apply list_elem_of_filter in Hin as [Hown Hin]. by apply Hcleared.
Qed.

Lemma resetShopping_refused_run (s : Sys) :
  refused 0 s = true →
  dispatch (resetShopping session) s =
    mkSys (ui s)
          (logged "Error resetting shopping:"
                  (called (DB.UpdateItems (DB.mkPatch (Some false) (Some false)) uid) s)).
Proof.
  intros Hno. unfold dispatch, resetShopping, try_catch, bind.
  by rewrite call_refused.
Qed.

(** C5, amended. When the service accepts the update, [resetShopping]
    clears [needed] and [bought] on every stored item of the user, leaves
    the other rows alone, and sets the mode to plan whatever it was; the
    item list on screen is the cleared one once the re-fetch is answered.
    When the service refuses the update, the state variables, the mode
    among them, and the tables are left as they were. *)
Theorem resetShopping_outcomes (s : Sys) :
  let s' := dispatch (resetShopping session) s in
  (refused 0 s = false →
     DB.shopping_items (remote (world s')) =
       map (λ item, if decide (user_id item = uid)
                    then mkItem (id item) (name item) (category item) false false
                                (user_id item)
                    else item)
           (DB.shopping_items (remote (world s))) ∧
     Forall (λ item, user_id item = uid → cleared item)
            (DB.shopping_items (remote (world s'))) ∧
     storeMode (ui s') = false ∧
     (refused 1 s = false →
        items (ui s') =
          filter (λ item, user_id item = uid) (DB.shopping_items (remote (world s'))) ∧
        Forall cleared (items (ui s')))) ∧
  (refused 0 s = true →
     ui s' = ui s ∧
     storeMode (ui s') = storeMode (ui s) ∧
     items (ui s') = items (ui s) ∧
     remote (world s') = remote (world s)).
Proof.
  intros s'. split.
  - apply resetShopping_accepted_rows.
  - intros Hno. subst s'. rewrite resetShopping_refused_run by done.
    cbn [ui world logged remote]. by rewrite remote_called_refused.
Qed.

(** *** Toggling *)

Lemma toggleNeeded_run (s : Sys) (id' : nat) (item : Item) :
  find (λ i, Nat.eqb (id i) id') (items (ui s)) = Some item →
  refused 0 s = false → refused 1 s = false →
  let update := DB.UpdateItem (DB.mkPatch (Some (negb (needed item))) None) id' uid in
  dispatch (toggleNeeded session id') s =
    mkSys (setItems (DB.select_items uid (DB.exec update (remote (world s)))) (ui s))
          (called (DB.SelectItems uid) (mkSys (ui s) (called update s))).
Proof.
  intros Hfind Hok0 Hok1 update.
  unfold dispatch, toggleNeeded, try_catch, bind. rewrite Hfind.
  rewrite call_accepted by done. cbn [error].
  rewrite fetchItems_accepted by by rewrite refused_called.
  cbn [snd ui world]. by rewrite remote_called_accepted.
Qed.

(** A fetch after an update that keeps ids and owners: the first item with
    a given id is the patched first row with that id. *)
Lemma find_select_map (f : Item → Item) (id' : nat) (rows : list Item)
    (cats : list Cat.row) :
  (∀ row, id (f row) = id row ∧ user_id (f row) = user_id row) →
  find (λ i, Nat.eqb (id i) id')
       (DB.select_items uid (DB.mkRemote (map f rows) cats)) =
  f <$> find (DB.is_row id' uid) rows.
Proof.
  intros Hf. unfold DB.select_items, DB.is_row, DB.owned_by. simpl.
  induction rows as [|row rows IH]; simpl; [done|].
  destruct (Hf row) as [Hid Hown]. rewrite Hown.
  destruct (String.eqb (user_id row) uid); simpl.
  - rewrite Hid, andb_true_r. by destruct (Nat.eqb (id row) id').
  - by rewrite andb_false_r.
Qed.

Lemma find_is_row (id' : nat) (rows : list Item) :
  Exists (λ row, id row = id' ∧ user_id row = uid) rows →
  ∃ row, find (DB.is_row id' uid) rows = Some row ∧ DB.is_row id' uid row = true.
Proof.
  induction 1 as [row rows [Hid Hown]|row rows _ IH]; simpl.
  - exists row. unfold DB.is_row at 1 3, DB.owned_by.
    apply Nat.eqb_eq in Hid. apply String.eqb_eq in Hown.
    by rewrite Hid, Hown.
  - destruct (DB.is_row id' uid row) eqn:Hrow; eauto.
Qed.

Lemma patch_keeps_key (p : DB.Patch) (id' : nat) (row : Item) :
  let f := λ item, if DB.is_row id' uid item then DB.patch p item else item in
  id (f row) = id row ∧ user_id (f row) = user_id row.
Proof. simpl. by destruct (DB.is_row id' uid row). Qed.

Lemma toggleNeeded_from_run (st : State) (s : Sys) (id' : nat) (item : Item) :
  find (λ i, Nat.eqb (id i) id') (items st) = Some item →
  refused 0 s = false → refused 1 s = false →
  let update := DB.UpdateItem (DB.mkPatch (Some (negb (needed item))) None) id' uid in
  dispatch_from st (toggleNeeded session id') s =
    mkSys (setItems (DB.select_items uid (DB.exec update (remote (world s)))) (ui s))
          (called (DB.SelectItems uid) (mkSys (ui s) (called update s))).
Proof.
  intros Hfind Hok0 Hok1 update.
  unfold dispatch_from, toggleNeeded, try_catch, bind. rewrite Hfind.
  rewrite call_accepted by done. cbn [error].
  rewrite fetchItems_accepted by by rewrite refused_called.
  cbn [snd ui world]. by rewrite remote_called_accepted.
Qed.

(** C8, amended. For an id that the list on screen has and that the
    service stores for the user, and when the service accepts the update
    and the re-fetch of both calls: one [toggleNeeded] negates the
    [needed] flag shown for that id; a second one made from the render
    that follows the first one's re-fetch brings the flag back to the
    value it had; a second one made from the same render as the first,
    before the component re-renders, writes the same negation again and
    leaves the flag negated. *)
Theorem toggleNeeded_twice (s : Sys) (id' : nat) (item : Item) :
  find (λ i, Nat.eqb (id i) id') (items (ui s)) = Some item →
  Exists (λ row, id row = id' ∧ user_id row = uid)
         (DB.shopping_items (remote (world s))) →
  refused 0 s = false → refused 1 s = false →
  refused 2 s = false → refused 3 s = false →
  let s1 := dispatch (toggleNeeded session id') s in
  let s2 := dispatch (toggleNeeded session id') s1 in
  let s2' := dispatch_from (ui s) (toggleNeeded session id') s1 in
  needed <$> find (λ i, Nat.eqb (id i) id') (items (ui s1)) = Some (negb (needed item)) ∧
  needed <$> find (λ i, Nat.eqb (id i) id') (items (ui s2)) = Some (needed item) ∧
  needed <$> find (λ i, Nat.eqb (id i) id') (items (ui s2')) = Some (negb (needed item)).
Proof.
  intros Hfind Hstored Hok0 Hok1 Hok2 Hok3.
  apply find_is_row in Hstored as (row & Hrow & Hkey).
  destruct (remote (world s)) as [rows cats] eqn:Hremote. simpl in Hrow.
  pose proof (toggleNeeded_run s id' item Hfind Hok0 Hok1) as Hs1.
  simpl in Hs1. rewrite Hremote in Hs1. simpl in Hs1.
  set (f1 := λ item0, if DB.is_row id' uid item0
                      then DB.patch (DB.mkPatch (Some (negb (needed item))) None) item0
                      else item0) in Hs1.
  assert (find (λ i, Nat.eqb (id i) id') (DB.select_items uid (DB.mkRemote (map f1 rows) cats))
          = Some (f1 row)) as Hfind1.
  { rewrite find_select_map by apply patch_keeps_key. by rewrite Hrow. }
  intros s1 s2 s2'. subst s2 s2' s1. rewrite Hs1.
  cbn [ui items setItems]. split.
  { rewrite Hfind1. subst f1. simpl. by rewrite Hkey. }
  set (s1 := mkSys _ _) in *.
  assert (remote (world s1) = DB.mkRemote (map f1 rows) cats) as Hremote1.
  { subst s1. cbn [world]. rewrite remote_called_select. cbn [world].
    rewrite remote_called_accepted by done. by rewrite Hremote. }
  assert (refused 0 s1 = false ∧ refused 1 s1 = false) as [Hok2' Hok3'].
  { subst s1. by rewrite !refused_called. }
  assert (∀ p row', let f := λ item0, if DB.is_row id' uid item0
                                      then DB.patch p item0 else item0 in
                    id (f (f1 row')) = id row' ∧ user_id (f (f1 row')) = user_id row')
    as Hkeys.
  { intros p row'. subst f1. simpl.
    destruct (DB.is_row id' uid row') eqn:Hrow'; simpl.
    - change (DB.is_row id' uid (DB.patch ?q row')) with (DB.is_row id' uid row').
      by rewrite Hrow'.
    - by rewrite Hrow'. }
  split.
  - pose proof (toggleNeeded_run s1 id' (f1 row) Hfind1 Hok2' Hok3') as Hs2.
    cbv zeta in Hs2. rewrite Hs2, Hremote1.
    cbn [ui items setItems DB.exec DB.shopping_items DB.categories].
    rewrite map_map, find_select_map, Hrow by apply Hkeys.
    subst f1. simpl. rewrite Hkey. simpl.
    change (DB.is_row id' uid (DB.patch ?p row)) with (DB.is_row id' uid row).
    rewrite Hkey. simpl. by rewrite negb_involutive.
  - assert (find (λ i, Nat.eqb (id i) id') (items (ui s)) = Some item) as Hstale
      by done.
    pose proof (toggleNeeded_from_run (ui s) s1 id' item Hstale Hok2' Hok3') as Hs2.
    cbv zeta in Hs2. rewrite Hs2, Hremote1.
    cbn [ui items setItems DB.exec DB.shopping_items DB.categories].
    rewrite map_map, find_select_map, Hrow by apply Hkeys.
    subst f1. simpl. rewrite Hkey. simpl.
    change (DB.is_row id' uid (DB.patch ?p row)) with (DB.is_row id' uid row).
    by rewrite Hkey.
Qed.

(** *** Categories *)

Lemma includes_true (l : list string) (x : string) :
  JS.includes l x = true ↔ x ∈ l.
Proof.
  unfold JS.includes. rewrite existsb_exists. split.
  - intros (y & Hin & Heq). apply String.eqb_eq in Heq as ->.
    by apply list_elem_of_In.
  - intros Hin. exists x. split; [by apply list_elem_of_In|apply String.eqb_refl].
Qed.

Lemma not_true (x : string) : JS.not x = true ↔ x = "".
Proof. apply String.eqb_eq. Qed.

Lemma allCategories_spec (userCategories : list string) :
  allCategories userCategories =
    (defaultCategories ++ filter (λ c, c ∉ defaultCategories) userCategories)%list.
Proof.
  unfold allCategories. f_equal. apply filter_reflect. intros c.
  rewrite negb_true_iff, <- not_true_iff_false. by rewrite includes_true.
Qed.

Lemma fetchCategories_accepted (s : Sys) :
  refused 0 s = false →
  fetchCategories session s =
    (Normal tt,
     mkSys (setCategories
              (allCategories (map Cat.name (DB.select_categories uid (remote (world s)))))
              (ui s))
           (called (DB.SelectCategories uid) s)).
Proof.
  intros Hok. unfold fetchCategories, try_catch, bind. by rewrite call_accepted.
Qed.

Lemma fetchCategories_refused (s : Sys) :
  refused 0 s = true →
  fetchCategories session s =
    (Normal tt,
     mkSys (setCategories defaultCategories (ui s))
           (logged "Error fetching categories:" (called (DB.SelectCategories uid) s))).
Proof.
  intros Hno. unfold fetchCategories, try_catch, bind. by rewrite call_refused.
Qed.


(** What the re-fetch after an insert leaves alone. *)
Lemma fetchCategories_frame (s : Sys) :
  let s' := (fetchCategories session s).2 in
  newCategoryName (ui s') = newCategoryName (ui s) ∧
  showAddCategory (ui s') = showAddCategory (ui s) ∧
  remote (world s') = remote (world s) ∧
  sent (world s') = (sent (world s) ++ [DB.SelectCategories uid])%list.
Proof.
  destruct (refused 0 s) eqn:Hcall; simpl.
  - rewrite fetchCategories_refused by done. simpl. by rewrite Hcall.
  - rewrite fetchCategories_accepted by done. simpl. by rewrite Hcall.
Qed.

Lemma fetchCategories_normal (s : Sys) : (fetchCategories session s).1 = Normal tt.
Proof.
  destruct (refused 0 s) eqn:Hcall.
  - by rewrite fetchCategories_refused.
  - by rewrite fetchCategories_accepted.
Qed.

Lemma fetchItems_frame (s : Sys) :
  let s' := (fetchItems session s).2 in
  newItemInputs (ui s') = newItemInputs (ui s) ∧
  remote (world s') = remote (world s) ∧
  sent (world s') = (sent (world s) ++ [DB.SelectItems uid])%list.
Proof.
  destruct (refused 0 s) eqn:Hcall; simpl.
  - rewrite fetchItems_refused by done. simpl. by rewrite Hcall.
  - rewrite fetchItems_accepted by done. simpl. by rewrite Hcall.
Qed.

(** *** Adding *)

Lemma addCategory_guard (st : State) :
  JS.not (trim (newCategoryName st))
    || JS.includes (categories st) (trim (newCategoryName st)) = true ↔
  trim (newCategoryName st) = "" ∨ trim (newCategoryName st) ∈ categories st.
Proof. by rewrite orb_true_iff, not_true, includes_true. Qed.

Lemma addCategory_skipped_run (s : Sys) :
  trim (newCategoryName (ui s)) = "" ∨
    trim (newCategoryName (ui s)) ∈ categories (ui s) →
  dispatch (addCategory session) s = s.
Proof.
  intros Hskip. apply addCategory_guard in Hskip.
  unfold dispatch, addCategory. by rewrite Hskip.
Qed.

Lemma addCategory_refused_run (s : Sys) :
  let pending := trim (newCategoryName (ui s)) in
  pending ≠ "" → pending ∉ categories (ui s) → refused 0 s = true →
  dispatch (addCategory session) s =
    mkSys (ui s)
          (logged "Error adding category:"
                  (called (DB.InsertCategory (Cat.mk pending uid)) s)).
Proof.
  intros pending Hne Hnew Hcall. unfold dispatch, addCategory. fold pending.
  pose proof (addCategory_guard (ui s)) as Hguard. fold pending in Hguard.
  destruct (JS.not pending || JS.includes (categories (ui s)) pending).
  { destruct Hguard as [[?|?] _]; done. }
  unfold try_catch, bind. by rewrite call_refused.
Qed.

Lemma addCategory_accepted_run (s : Sys) :
  let pending := trim (newCategoryName (ui s)) in
  pending ≠ "" → pending ∉ categories (ui s) → refused 0 s = false →
  dispatch (addCategory session) s =
    (fetchCategories session
       (mkSys (setShowAddCategory false (setNewCategoryName "" (ui s)))
              (called (DB.InsertCategory (Cat.mk pending uid)) s))).2.
Proof.
  intros pending Hne Hnew Hcall. unfold dispatch, addCategory. fold pending.
  pose proof (addCategory_guard (ui s)) as Hguard. fold pending in Hguard.
  destruct (JS.not pending || JS.includes (categories (ui s)) pending).
  { destruct Hguard as [[?|?] _]; done. }
  unfold try_catch, bind. rewrite call_accepted by done.
  cbn [error]. unfold set. cbn [ui world].
  set (s1 := mkSys _ _).
  pose proof (fetchCategories_normal s1) as Hnormal.
  destruct (fetchCategories session s1) as [c s2]. simpl in Hnormal. by subst c.
Qed.

(** C6, amended. [addCategory] returns at once, with no call sent and
    nothing changed, when the trimmed pending name is empty or already in
    the category list.  Otherwise it sends one insert of a row with the
    trimmed name and the user's id; when the service accepts it, the row
    is stored, the pending name is emptied and the form is closed; when
    the service refuses it, the tables and the state variables stay as
    they were. *)
Theorem addCategory_outcomes (s : Sys) :
  let pending := trim (newCategoryName (ui s)) in
  let s' := dispatch (addCategory session) s in
  (pending = "" ∨ pending ∈ categories (ui s) → s' = s) ∧
  (pending ≠ "" → pending ∉ categories (ui s) →
     sent (world s') =
       (sent (world s) ++
          DB.InsertCategory (Cat.mk pending uid)
          :: (if refused 0 s then [] else [DB.SelectCategories uid]))%list ∧
     (refused 0 s = false →
        DB.categories (remote (world s')) =
          (DB.categories (remote (world s)) ++ [Cat.mk pending uid])%list ∧
        DB.shopping_items (remote (world s')) = DB.shopping_items (remote (world s)) ∧
        newCategoryName (ui s') = "" ∧
        showAddCategory (ui s') = false) ∧
     (refused 0 s = true → ui s' = ui s ∧ remote (world s') = remote (world s))).
Proof.
  intros pending s'. split; [apply addCategory_skipped_run|].
  intros Hne Hnew. destruct (refused 0 s) eqn:Hcall.
  - assert (s' = mkSys (ui s)
              (logged "Error adding category:"
                      (called (DB.InsertCategory (Cat.mk pending uid)) s))) as ->
      by by apply addCategory_refused_run.
    cbn [ui world logged sent remote]. rewrite remote_called_refused by done.
    split; [by unfold called|]. by split.
  - set (s1 := mkSys (setShowAddCategory false (setNewCategoryName "" (ui s)))
                     (called (DB.InsertCategory (Cat.mk pending uid)) s)).
    assert (s' = (fetchCategories session s1).2) as ->
      by by apply addCategory_accepted_run.
    pose proof (fetchCategories_frame s1) as (Hname & Hform & Hremote & Hsent).
    cbv zeta in Hname, Hform, Hremote, Hsent.
    rewrite Hsent, Hname, Hform, Hremote. subst s1. cbn [ui world].
    rewrite remote_called_accepted by done.
    split; [unfold called; simpl; by rewrite <- app_assoc|]. by split.
Qed.

Lemma addItem_refused_run (s : Sys) (c : string) :
  let pending := trim (JS.or_empty (newItemInputs (ui s) !! c)) in
  pending ≠ "" → refused 0 s = true →
  dispatch (addItem session c) s =
    mkSys (ui s)
          (logged "Error adding item:"
                  (called (DB.InsertItem pending c false false uid) s)).
Proof.
  intros pending Hne Hcall. unfold dispatch, addItem. fold pending.
  pose proof (not_true pending) as Hguard.
  destruct (JS.not pending). { by destruct Hne; apply Hguard. }
  unfold try_catch, bind. by rewrite call_refused.
Qed.

Lemma addItem_accepted_run (s : Sys) (c : string) :
  let pending := trim (JS.or_empty (newItemInputs (ui s) !! c)) in
  pending ≠ "" → refused 0 s = false →
  dispatch (addItem session c) s =
    (fetchItems session
       (mkSys (setNewItemInputs (<[c := ""]> (newItemInputs (ui s))) (ui s))
              (called (DB.InsertItem pending c false false uid) s))).2.
Proof.
  intros pending Hne Hcall. unfold dispatch, addItem. fold pending.
  pose proof (not_true pending) as Hguard.
  destruct (JS.not pending). { by destruct Hne; apply Hguard. }
  unfold try_catch, bind. rewrite call_accepted by done.
  cbn [error]. unfold set. cbn [ui world].
  set (s1 := mkSys _ _).
  pose proof (fetchItems_normal s1) as Hnormal.
  destruct (fetchItems session s1) as [c' s2]. simpl in Hnormal. by subst c'.
Qed.

(** C7, amended. With a pending text for the category whose trimmed value
    is not empty, [addItem] sends one insert of a row with the trimmed
    text as name, the category, [needed] and [bought] false and the
    user's id; when the service accepts it, that one row is added and the
    pending text of the category is emptied; when the service refuses
    it, the tables and the state variables stay as they were.  With an
    empty trimmed text it returns at once, no call sent, nothing
    changed. *)
Theorem addItem_outcomes (s : Sys) (c : string) :
  let pending := trim (JS.or_empty (newItemInputs (ui s) !! c)) in
  let s' := dispatch (addItem session c) s in
  (pending = "" → s' = s) ∧
  (pending ≠ "" →
     sent (world s') =
       (sent (world s) ++
          DB.InsertItem pending c false false uid
          :: (if refused 0 s then [] else [DB.SelectItems uid]))%list ∧
     (refused 0 s = false →
        DB.shopping_items (remote (world s')) =
          (DB.shopping_items (remote (world s)) ++
             [mkItem (DB.fresh_id (DB.shopping_items (remote (world s))))
                     pending c false false uid])%list ∧
        DB.categories (remote (world s')) = DB.categories (remote (world s)) ∧
        newItemInputs (ui s') = <[c := ""]> (newItemInputs (ui s))) ∧
     (refused 0 s = true → ui s' = ui s ∧ remote (world s') = remote (world s))).
Proof.
  intros pending s'. split.
  { intros Hempty. subst s'. unfold dispatch, addItem. fold pending.
    by rewrite Hempty. }
  intros Hne. destruct (refused 0 s) eqn:Hcall.
  - assert (s' = mkSys (ui s)
              (logged "Error adding item:"
                      (called (DB.InsertItem pending c false false uid) s))) as ->
      by by apply addItem_refused_run.
    cbn [ui world logged sent remote]. rewrite remote_called_refused by done.
    split; [by unfold called|]. by split.
  - set (s1 := mkSys (setNewItemInputs (<[c := ""]> (newItemInputs (ui s))) (ui s))
                     (called (DB.InsertItem pending c false false uid) s)).
    assert (s' = (fetchItems session s1).2) as ->
      by by apply addItem_accepted_run.
    pose proof (fetchItems_frame s1) as (Hinputs & Hremote & Hsent).
    cbv zeta in Hinputs, Hremote, Hsent.
    rewrite Hsent, Hinputs, Hremote. subst s1. cbn [ui world].
    rewrite remote_called_accepted by done.
    split; [unfold called; simpl; by rewrite <- app_assoc|]. by split.
Qed.
End HandlerFacts.

(** ** The older copy *)

(** The current [getItemsByCategory] is the older one followed by the sort. *)
Lemma getItemsByCategory_sorts_legacy `{JSString} (st : State) (c : string) :
  getItemsByCategory st c = JS.sort byName (Legacy.getItemsByCategory st c).
Proof. unfold getItemsByCategory, Legacy.getItemsByCategory. by destruct (storeMode st). Qed.

(** The older copy answers in fetch order, which need not be name order. *)
Lemma legacy_getItemsByCategory_fetch_order :
  Legacy.getItemsByCategory (ui (planning [])) "Fruit/Veggie" = [banana; apple] ∧
  @getItemsByCategory Ascii7.platform (ui (planning [])) "Fruit/Veggie" = [apple; banana] ∧
  0 < @byName Ascii7.platform banana apple.
Proof. by vm_compute. Qed.

(** ** The statements at concrete inputs *)

(** The fruit of a plan-mode screen: both items of the category, by name. *)
Lemma getItemsByCategory_plan_witness :
  let st := ui (planning []) in
  storeMode st = false ∧
  @getItemsByCategory Ascii7.platform st "Fruit/Veggie" ≡ₚ [banana; apple] ∧
  @getItemsByCategory Ascii7.platform st "Fruit/Veggie" = [apple; banana].
Proof.
  pose proof (@getItemsByCategory_plan Ascii7.platform Ascii7_collation
                (ui (planning [])) "Fruit/Veggie" eq_refl) as [Hperm _].
  split; [reflexivity|]. split; [exact Hperm|reflexivity].
Defined.

(** The same category in store mode: only the needed apple. *)
Lemma getItemsByCategory_store_witness :
  let st := ui (planning []) in
  @getItemsByCategory Ascii7.platform (setStoreMode true st) "Fruit/Veggie" = [apple] ∧
  sublist (@getItemsByCategory Ascii7.platform (setStoreMode true st) "Fruit/Veggie")
          (@getItemsByCategory Ascii7.platform (setStoreMode false st) "Fruit/Veggie").
Proof.
  pose proof (@getItemsByCategory_store Ascii7.platform Ascii7_collation
                (ui (planning [])) "Fruit/Veggie") as [_ Hsub].
  split; [reflexivity|exact Hsub].
Defined.

(** A store-mode screen whose only item is not needed shows no category. *)
Lemma visibleCategories_by_mode_witness :
  let st := setItems [banana] (ui (store_trip [])) in
  storeMode st = true ∧ Forall (λ item, needed item = false) (items st) ∧
  @visibleCategories Ascii7.platform st = [].
Proof.
  pose proof (@visibleCategories_by_mode Ascii7.platform
                (setItems [banana] (ui (store_trip [])))) as (_ & _ & Hnone).
  split; [reflexivity|]. split; [by repeat constructor|].
  apply Hnone; [reflexivity|by repeat constructor].
Defined.

(** No item has id 7: both toggles leave the system as it is. *)
Lemma toggle_unknown_id_witness :
  Forall (λ item, id item ≠ 7%nat) (items (ui (planning []))) ∧
  dispatch (toggleNeeded alice 7) (planning []) = planning [] ∧
  dispatch (toggleBought alice 7) (planning []) = planning [].
Proof.
  assert (Forall (λ item, id item ≠ 7%nat) (items (ui (planning [])))) as Hid
    by (repeat constructor; discriminate).
  destruct (toggle_unknown_id alice (planning []) 7 Hid) as (Hn & Hb & _ & _).
  split; [exact Hid|]. unfold dispatch. by rewrite Hn, Hb.
Defined.

(** A store trip reset with the service up. *)
Lemma resetShopping_outcomes_witness :
  let s' := dispatch (resetShopping alice) (store_trip []) in
  refused 0 (store_trip []) = false ∧
  Forall (λ item, user_id item = "alice" → cleared item)
         (DB.shopping_items (remote (world s'))) ∧
  storeMode (ui s') = false.
Proof.
  destruct (resetShopping_outcomes alice (store_trip [])) as [Haccepted _].
  destruct (Haccepted eq_refl) as (_ & Hrows & Hmode & _).
  split; [reflexivity|]. split; [exact Hrows|exact Hmode].
Defined.

(** C5 as stated fails when the service refuses the update: the trip stays
    in store mode and the milk stays needed. *)
Lemma resetShopping_refused_keeps_mode :
  let s' := dispatch (resetShopping alice) (store_trip [true]) in
  storeMode (ui (store_trip [true])) = true ∧
  storeMode (ui s') ≠ false ∧
  ¬ Forall (λ item, user_id item = "alice" → cleared item)
           (DB.shopping_items (remote (world s'))) ∧
  ¬ Forall cleared (items (ui s')).
Proof.
  split; [reflexivity|]. split; [by vm_compute|].
  split; intros Hall; apply Forall_inv in Hall.
  - by destruct (Hall eq_refl).
  - by destruct Hall.
Qed.

(** The needed milk, toggled twice with the service up. *)
Lemma toggleNeeded_twice_witness :
  let s1 := dispatch (toggleNeeded alice 1) (planning []) in
  let s2 := dispatch (toggleNeeded alice 1) s1 in
  let s2' := dispatch_from (ui (planning [])) (toggleNeeded alice 1) s1 in
  find (λ i, Nat.eqb (id i) 1) (items (ui (planning []))) = Some milk ∧
  needed <$> find (λ i, Nat.eqb (id i) 1) (items (ui s1)) = Some false ∧
  needed <$> find (λ i, Nat.eqb (id i) 1) (items (ui s2)) = Some true ∧
  needed <$> find (λ i, Nat.eqb (id i) 1) (items (ui s2')) = Some false.
Proof.
  assert (Exists (λ row, id row = 1%nat ∧ user_id row = "alice")
                 (DB.shopping_items (remote (world (planning []))))) as Hstored
    by (by left).
  split; [reflexivity|].
  exact (toggleNeeded_twice alice (planning []) 1 milk eq_refl Hstored
           eq_refl eq_refl eq_refl eq_refl).
Defined.

(** C8 as stated fails in three ways.  When the service refuses the first
    update, the first call changes nothing and the second clears the flag.
    With every call accepted, when the second call is made from the same
    render as the first, both write the negation of the flag that render
    shows.  Either way the milk that was needed is not needed after the
    two calls.  And when the service no longer stores the milk, the list
    fetched after the first call has lost it. *)
Lemma toggleNeeded_twice_not_restored :
  let h := toggleNeeded alice 1 in
  let refused_first := dispatch h (dispatch h (planning [true])) in
  let same_render := dispatch_from (ui (planning [])) h (dispatch h (planning [])) in
  let deleted_elsewhere :=
    dispatch h (dispatch h (mkSys (ui (planning []))
                                  (mkWorld (DB.mkRemote [banana; apple] []) [] [] []))) in
  find (λ i, Nat.eqb (id i) 1) (items (ui (planning []))) = Some milk ∧
  needed milk = true ∧
  needed <$> find (λ i, Nat.eqb (id i) 1) (items (ui refused_first)) = Some false ∧
  needed <$> find (λ i, Nat.eqb (id i) 1) (items (ui same_render)) = Some false ∧
  needed <$> find (λ i, Nat.eqb (id i) 1) (items (ui deleted_elsewhere)) = None.
Proof.
  split; [reflexivity|]. split; [reflexivity|]. split; [reflexivity|].
  split; reflexivity.
Qed.


(** Outside the data model: from a table holding one custom name twice
    for the owner, the name is twice in the resolved list; a repeated
    built-in name is dropped all the same. *)
Lemma fetchCategories_repeated_name :
  let s := with_categories ["Snacks"; "Snacks"] in
  let s' := with_categories ["Bread"; "Bread"] in
  categories (ui (fetchCategories alice s).2) =
    (defaultCategories ++ ["Snacks"; "Snacks"])%list ∧
  ¬ NoDup (categories (ui (fetchCategories alice s).2)) ∧
  categories (ui (fetchCategories alice s').2) = defaultCategories.
Proof.
  split; [reflexivity|]. split; [|reflexivity].
  apply (bool_decide_unpack _). reflexivity.
Qed.

(** The pending name [" Snacks "] added with the service up. *)
Lemma addCategory_outcomes_witness :
  let s := planning [] in
  let s' := dispatch (@addCategory Ascii7.platform alice) s in
  Ascii7.trim (newCategoryName (ui s)) = "Snacks" ∧
  ("Snacks" ∉ categories (ui s)) ∧
  refused 0 s = false ∧
  DB.categories (remote (world s')) = [Cat.mk "Snacks" "alice"] ∧
  newCategoryName (ui s') = "" ∧
  showAddCategory (ui s') = false.
Proof.
  assert ("Snacks" ∉ categories (ui (planning []))) as Hnew
    by (apply (bool_decide_unpack _); reflexivity).
  destruct (@addCategory_outcomes Ascii7.platform alice (planning [])) as [_ Hadd].
  destruct (Hadd ltac:(discriminate) Hnew) as (_ & Hok & _).
  destruct (Hok eq_refl) as (Hrows & _ & Hname & Hform).
  split; [reflexivity|]. split; [exact Hnew|]. split; [reflexivity|].
  split; [exact Hrows|]. split; [exact Hname|exact Hform].
Defined.

(** C6 as stated fails when the service refuses the insert: no row is
    stored, the pending name stays and the form stays open. *)
Lemma addCategory_refused_keeps_form :
  let s := planning [true] in
  let s' := dispatch (@addCategory Ascii7.platform alice) s in
  Ascii7.trim (newCategoryName (ui s)) = "Snacks" ∧
  ("Snacks" ∉ categories (ui s)) ∧
  DB.categories (remote (world s')) = [] ∧
  newCategoryName (ui s') ≠ "" ∧
  showAddCategory (ui s') ≠ false.
Proof.
  split; [reflexivity|]. split; [apply (bool_decide_unpack _); reflexivity|].
  split; [reflexivity|]. split; by vm_compute.
Qed.

(** The pending text [" Rye "] added to Bread with the service up. *)
Lemma addItem_outcomes_witness :
  let s := planning [] in
  let s' := dispatch (@addItem Ascii7.platform alice "Bread") s in
  Ascii7.trim (JS.or_empty (newItemInputs (ui s) !! "Bread")) = "Rye" ∧
  refused 0 s = false ∧
  DB.shopping_items (remote (world s')) =
    [milk; banana; apple; bob's_rice; mkItem 5 "Rye" "Bread" false false "alice"] ∧
  newItemInputs (ui s') !! "Bread" = Some "".
Proof.
  destruct (@addItem_outcomes Ascii7.platform alice (planning []) "Bread") as [_ Hadd].
  destruct (Hadd ltac:(by vm_compute)) as (_ & Hok & _).
  destruct (Hok eq_refl) as (Hrows & _ & Hinputs).
  split; [by vm_compute|]. split; [reflexivity|]. split; [exact Hrows|].
  rewrite Hinputs. apply lookup_insert_eq.
Defined.

(** C7 as stated fails when the service refuses the insert: no row is
    added and the pending text stays. *)
Lemma addItem_refused_keeps_input :
  let s := planning [true] in
  let s' := dispatch (@addItem Ascii7.platform alice "Bread") s in
  Ascii7.trim (JS.or_empty (newItemInputs (ui s) !! "Bread")) = "Rye" ∧
  DB.shopping_items (remote (world s')) = DB.shopping_items (remote (world s)) ∧
  newItemInputs (ui s') !! "Bread" ≠ Some "".
Proof.
  split; [by vm_compute|]. split; [reflexivity|]. by vm_compute.
Qed.

(** * Further properties of the component *)

(** ** Statistics and panels *)

Section PanelFacts.
Context `{JSString}.

Lemma length_filter_sort {A} (cmp : A → A → Z) (p : A → bool) (l : list A) :
  length (List.filter p (JS.sort cmp l)) = length (List.filter p l).
Proof.
  assert (∀ x l', length (List.filter p (JS.insert_sorted cmp x l')) =
                  length (List.filter p (x :: l'))) as Hinsert.
  { intros x l'. induction l' as [|y l' IH]; simpl; [done|].
    destruct (cmp x y <=? 0); simpl; [done|].
    simpl in IH. destruct (p y), (p x); simpl in *; lia. }
  induction l as [|x l IH]; simpl; [done|].
  rewrite Hinsert. simpl. destruct (p x); simpl; by rewrite IH.
Qed.

Lemma In_getItemsByCategory (st : State) (c : string) (item : Item) :
  In item (getItemsByCategory st c) ↔
  In item (items st) ∧ category item = c ∧ (storeMode st = true → needed item = true).
Proof.
  unfold getItemsByCategory.
  rewrite <- !list_elem_of_In, sort_Permutation, !list_elem_of_In.
  destruct (storeMode st); rewrite filter_In, ?andb_true_iff, String.eqb_eq;
    intuition congruence.
Qed.

Lemma getCategoryStats_store (st : State) (c : string) :
  storeMode st = true →
  getCategoryStats st c =
    (count_in c (λ item, needed item && bought item) (items st),
     count_in c needed (items st)).
Proof.
  intros Hmode. unfold getCategoryStats, getItemsByCategory, count_in.
  rewrite Hmode, length_filter_sort, sort_length, <- filter_and.
  f_equal. f_equal. apply filter_ext. intros item. by rewrite andb_assoc.
Qed.

Lemma getCategoryStats_plan (st : State) (c : string) :
  storeMode st = false →
  getCategoryStats st c =
    (count_in c needed (items st), count_in c (λ _, true) (items st)).
Proof.
  intros Hmode. unfold getCategoryStats, getItemsByCategory, count_in.
  rewrite Hmode, length_filter_sort, sort_length, <- filter_and.
  f_equal. f_equal. apply filter_ext. intros item. by rewrite andb_true_r.
Qed.

(** X1. The two numbers of a category header count items of the list: in
    store mode the bought ones among the needed items of the category, out
    of the needed items of the category; in plan mode the needed ones out
    of all items of the category.  So the number shown as needed in plan
    mode is the number of rows of the category in store mode, and in both
    modes the first number is at most the second. *)
Theorem getCategoryStats_counts (st : State) (c : string) :
  (storeMode st = true →
     getCategoryStats st c =
       (count_in c (λ item, needed item && bought item) (items st),
        count_in c needed (items st))) ∧
  (storeMode st = false →
     getCategoryStats st c =
       (count_in c needed (items st), count_in c (λ _, true) (items st))) ∧
  (getCategoryStats (setStoreMode false st) c).1 =
    (getCategoryStats (setStoreMode true st) c).2 ∧
  ((getCategoryStats st c).1 ≤ (getCategoryStats st c).2)%nat.
Proof.
  split; [apply getCategoryStats_store|]. split; [apply getCategoryStats_plan|].
  split.
  - by rewrite (getCategoryStats_store (setStoreMode true st)),
               (getCategoryStats_plan (setStoreMode false st)).
  - unfold getCategoryStats. destruct (storeMode st); simpl; apply List.filter_length_le.
Qed.

Lemma sum_one_category (g : string → nat) (k : string) (cats : list string) :
  NoDup cats →
  sum_list (map (λ c, ((if String.eqb k c then 1 else 0) + g c)%nat) cats) =
    ((if bool_decide (k ∈ cats) then 1 else 0) + sum_list (map g cats))%nat.
Proof.
  induction 1 as [|c cats Hc _ IH]; simpl; [done|]. rewrite IH.
  destruct (String.eqb_spec k c) as [->|Hne].
  - rewrite (bool_decide_eq_false_2 (c ∈ cats)) by done.
    rewrite (bool_decide_eq_true_2 (c ∈ c :: cats)) by left. lia.
  - destruct (decide (k ∈ cats)) as [Hin|Hin].
    + rewrite (bool_decide_eq_true_2 (k ∈ cats)) by done.
      rewrite (bool_decide_eq_true_2 (k ∈ c :: cats)) by (by right). lia.
    + rewrite (bool_decide_eq_false_2 (k ∈ cats)) by done.
      rewrite (bool_decide_eq_false_2 (k ∈ c :: cats)); [lia|].
      by intros [?|?]%elem_of_cons.
Qed.

Lemma sum_by_category (p : Item → bool) (cats : list string) (l : list Item) :
  NoDup cats →
  (∀ item, item ∈ l → p item = true → category item ∈ cats) →
  sum_list (map (λ c, count_in c p l) cats) = length (List.filter p l).
Proof.
  intros Hcats. unfold count_in. induction l as [|x l IH]; intros Hcover.
  { simpl. clear. by induction cats. }
  assert (sum_list (map (λ c, length (List.filter
            (λ item, String.eqb (category item) c && p item) l)) cats) =
          length (List.filter p l)) as IH'.
  { apply IH. intros item Hin. apply Hcover. by right. }
  destruct (p x) eqn:Hx.
  - rewrite (map_ext _ (λ c, ((if String.eqb (category x) c then 1 else 0) +
       length (List.filter (λ item, String.eqb (category item) c && p item) l))%nat)).
    + rewrite sum_one_category by done.
      rewrite bool_decide_eq_true_2 by (apply Hcover; [left|done]).
      simpl. by rewrite Hx, IH'.
    + intros c. simpl. rewrite Hx, andb_true_r.
      by destruct (String.eqb (category x) c).
  - rewrite (map_ext _ (λ c,
       length (List.filter (λ item, String.eqb (category item) c && p item) l))).
    + simpl. by rewrite Hx, IH'.
    + intros c. simpl. by rewrite Hx, andb_false_r.
Qed.

Lemma sum_visible (f : string → nat) (q : string → bool) (cats : list string) :
  (∀ c, q c = false → f c = 0%nat) →
  sum_list (map f (List.filter q cats)) = sum_list (map f cats).
Proof.
  intros Hzero. induction cats as [|c cats IH]; simpl; [done|].
  destruct (q c) eqn:Hq; simpl; rewrite IH; [done|]. by rewrite Hzero.
Qed.

Lemma needed_split (l : list Item) :
  length (List.filter needed l) =
    (length (List.filter (λ item, needed item && negb (bought item)) l) +
     length (List.filter (λ item, needed item && bought item) l))%nat.
Proof.
  induction l as [|x l IH]; simpl; [done|].
  destruct (needed x), (bought x); simpl; lia.
Qed.

(** X2. In store mode, when the category list has no duplicate and holds
    the category of every needed item, the panels add up to the summary
    bar: the bought numbers of the visible categories sum to
    [getBoughtItemsCount], and their totals to the bought and the
    remaining together. *)
Theorem store_panels_add_up (st : State) :
  storeMode st = true →
  NoDup (categories st) →
  (∀ item, item ∈ items st → needed item = true → category item ∈ categories st) →
  sum_list (map (λ c, (getCategoryStats st c).1) (visibleCategories st)) =
    getBoughtItemsCount st ∧
  sum_list (map (λ c, (getCategoryStats st c).2) (visibleCategories st)) =
    (getNeededItemsCount st + getBoughtItemsCount st)%nat.
Proof.
  intros Hmode Hcats Hcover.
  assert (∀ c, ((0 <? length (getItemsByCategory st c))%nat || negb (storeMode st)) = false →
               getCategoryStats st c = (0%nat, 0%nat)) as Hhidden.
  { intros c. rewrite Hmode, orb_false_r, Nat.ltb_ge.
    unfold getCategoryStats. rewrite Hmode.
    destruct (getItemsByCategory st c); simpl; [done|lia]. }
  unfold visibleCategories.
  rewrite !sum_visible by (intros c Hc; by rewrite Hhidden).
  rewrite (map_ext _ (λ c, count_in c (λ item, needed item && bought item) (items st)))
    by (intros c; by rewrite getCategoryStats_store).
  rewrite (map_ext (λ c, (getCategoryStats st c).2) (λ c, count_in c needed (items st)))
    by (intros c; by rewrite getCategoryStats_store).
  rewrite !sum_by_category; try done.
  - split; [done|]. unfold getNeededItemsCount, getBoughtItemsCount.
    apply needed_split.
  - intros item Hin [Hn _]%andb_true_iff. by apply Hcover.
Qed.
End PanelFacts.

(** ** What is on screen *)

Section ScreenFacts.
Context `{JSString}.

Lemma In_visibleCategories (st : State) (c : string) :
  In c (visibleCategories st) ↔
  In c (categories st) ∧
  (storeMode st = true → ∃ item, In item (items st) ∧ category item = c ∧ needed item = true).
Proof.
  unfold visibleCategories. rewrite filter_In, orb_true_iff, negb_true_iff, Nat.ltb_lt.
  split; intros [Hc Hshow]; (split; [done|]).
  - intros Hmode. destruct Hshow as [Hlen|Hplan]; [|congruence].
    destruct (getItemsByCategory st c) as [|item l] eqn:Hl; simpl in Hlen; [lia|].
    assert (In item (getItemsByCategory st c)) as Hin by (rewrite Hl; by left).
    apply In_getItemsByCategory in Hin as (? & ? & ?). eauto.
  - destruct (storeMode st) eqn:Hmode; [left|by right].
    destruct (Hshow eq_refl) as (item & Hin & Hcat & Hneeded).
    assert (In item (getItemsByCategory st c)) as Hin'.
    { apply In_getItemsByCategory. by rewrite Hmode. }
    destruct (getItemsByCategory st c); simpl in *; [done|lia].
Qed.

(** The rows of the main render. *)
Lemma shownItems_rows (st : State) (item : Item) :
  item ∈ shownItems st ↔
  item ∈ items st ∧
  category item ∈ categories st ∧
  (category item ∉ collapsedCategories st) ∧
  (storeMode st = true → needed item = true).
Proof.
  unfold shownItems. rewrite !list_elem_of_In, in_flat_map. split.
  - intros (c & Hvisible & Hrow).
    apply In_visibleCategories in Hvisible as [Hc _].
    destruct (decide (c ∈ collapsedCategories st)) as [Hcollapsed|Hopen].
    { by rewrite bool_decide_eq_true_2 in Hrow. }
    rewrite bool_decide_eq_false_2 in Hrow by done. simpl in Hrow.
    apply In_getItemsByCategory in Hrow as (Hin & <- & Hneeded). done.
  - intros (Hin & Hc & Hopen & Hneeded). exists (category item). split.
    + apply In_visibleCategories. split; [done|]. intros Hmode. eauto.
    + rewrite bool_decide_eq_false_2 by done. simpl.
      by apply In_getItemsByCategory.
Qed.

Lemma NoDup_getItemsByCategory (st : State) (c : string) :
  NoDup (items st) → NoDup (getItemsByCategory st c).
Proof.
  intros Hitems. unfold getItemsByCategory. rewrite sort_Permutation.
  destruct (storeMode st); rewrite filter_bool_eq; by apply NoDup_filter.
Qed.

Lemma NoDup_panels (g : string → list Item) (cats : list string) :
  NoDup cats →
  (∀ c, NoDup (g c)) →
  (∀ c item, item ∈ g c → category item = c) →
  NoDup (flat_map g cats).
Proof.
  intros Hcats Hg Hcat. induction Hcats as [|c cats Hc _ IH]; simpl; [constructor|].
  apply NoDup_app. split; [done|]. split; [|done].
  intros item Hin Hin'. apply list_elem_of_In, in_flat_map in Hin' as (c' & Hc' & Hin').
  apply list_elem_of_In in Hc', Hin'.
  apply Hcat in Hin, Hin'. by subst.
Qed.

(** X3. With the category names pairwise distinct and the item ids
    pairwise distinct (they are the keys of the panels and of the rows),
    the component returns no item row while [loading] is set, and
    otherwise one row, and only one, for each item that is in the item
    list, whose category is in the category list and is not collapsed, and
    that, in store mode, is needed; it returns no other row.  In
    particular an item whose category is not in the category list has no
    row. *)
Theorem screenItems_spec (st : State) :
  NoDup (categories st) →
  NoDup (map id (items st)) →
  NoDup (screenItems st) ∧
  ∀ item,
    item ∈ screenItems st ↔
    loading st = false ∧
    item ∈ items st ∧
    category item ∈ categories st ∧
    (category item ∉ collapsedCategories st) ∧
    (storeMode st = true → needed item = true).
Proof.
  intros Hcats Hids. unfold screenItems. destruct (loading st).
  { split; [constructor|]. intros item. split; [by intros ?%elem_of_nil|].
    by intros [? _]. }
  split.
  - unfold shownItems. apply NoDup_panels.
    + unfold visibleCategories. rewrite filter_bool_eq. by apply NoDup_filter.
    + intros c. destruct (negb _); [|constructor].
      by apply NoDup_getItemsByCategory, (NoDup_fmap_1 id).
    + intros c item Hin. destruct (negb _); [|by apply elem_of_nil in Hin].
      apply list_elem_of_In, In_getItemsByCategory in Hin. tauto.
  - intros item. rewrite shownItems_rows. tauto.
Qed.

(** X4. The view functions of the older copy agree with those of the
    current one on every state: for the same item list, category list and
    mode they give the same visible categories, the same two numbers in
    each header, and in each category the same items, which the older copy
    lists in the order of the item list instead of by name.  (The state
    itself can differ between the copies: their built-in names differ.) *)
Theorem legacy_same_views (st : State) :
  Legacy.visibleCategories st = visibleCategories st ∧
  (∀ c, Legacy.getCategoryStats st c = getCategoryStats st c) ∧
  (∀ c, Legacy.getItemsByCategory st c ≡ₚ getItemsByCategory st c) ∧
  (∀ c, sublist (Legacy.getItemsByCategory st c) (items st)).
Proof.
  split_and!.
  - unfold Legacy.visibleCategories, visibleCategories. apply filter_ext. intros c.
    by rewrite getItemsByCategory_sorts_legacy, sort_length.
  - intros c. unfold Legacy.getCategoryStats, getCategoryStats.
    rewrite getItemsByCategory_sorts_legacy.
    by rewrite !length_filter_sort, sort_length.
  - intros c. rewrite getItemsByCategory_sorts_legacy. symmetry. apply sort_Permutation.
  - intros c. unfold Legacy.getItemsByCategory.
    destruct (storeMode st); rewrite filter_bool_eq; apply sublist_filter.
Qed.

(** The category lists the two copies resolve from one fetch differ in
    their built-in part, whatever was fetched. *)
Lemma legacy_builtins_differ (userCategories : list string) :
  "Amy" ∈ Legacy.allCategories userCategories ∧
  ("Amy" ∈ allCategories userCategories ↔ "Amy" ∈ userCategories).
Proof.
  split.
  - unfold Legacy.allCategories. apply elem_of_app. left.
    apply (bool_decide_unpack _). reflexivity.
  - unfold allCategories. rewrite elem_of_app, !list_elem_of_In, filter_In. split.
    + intros [Hin|[Hin _]]; [|done]. exfalso.
      unfold defaultCategories in Hin. simpl in Hin. intuition discriminate.
    + intros Hin. right. split; [done|reflexivity].
Qed.
End ScreenFacts.

(** ** More on the handlers *)

Section MoreHandlerFacts.
Context `{JSString} (session : Session).

Local Abbreviation uid := (session_user_id session).

(** The shape of every mutating handler: one call, [throw] on its error,
    a continuation, and a [catch] that logs. *)
Local Abbreviation guarded req k msg :=
  (try_catch
     (bind (call (D := unit) req (λ _, None))
           (λ r, match error r with Some e => throw e | None => k end))
     (λ _, console_error msg)).

Lemma guarded_refused (req : DB.Request) (k : Async unit) (msg : string) (s : Sys) :
  refused 0 s = true →
  guarded req k msg s = (Normal tt, mkSys (ui s) (logged msg (called req s))).
Proof. intros Hno. unfold try_catch, bind. by rewrite call_refused. Qed.

Lemma guarded_accepted (req : DB.Request) (k : Async unit) (msg : string) (s : Sys) :
  refused 0 s = false →
  (k (mkSys (ui s) (called req s))).1 = Normal tt →
  guarded req k msg s = k (mkSys (ui s) (called req s)).
Proof.
  intros Hok Hk. unfold try_catch, bind. rewrite call_accepted by done.
  cbn [error]. destruct (k _) as [c s']. simpl in Hk. by subst c.
Qed.

Lemma guarded_normal (req : DB.Request) (k : Async unit) (msg : string) (s : Sys) :
  (guarded req k msg s).1 = Normal tt.
Proof.
  destruct (refused 0 s) eqn:Hcall.
  - by rewrite guarded_refused.
  - unfold try_catch, bind. rewrite call_accepted by done. cbn [error].
    by destruct (k _) as [[[]|e] s'].
Qed.

Lemma only_logged_refused (req : DB.Request) (msg : string) (s : Sys) :
  refused 0 s = true →
  only_logged req msg s (mkSys (ui s) (logged msg (called req s))).
Proof.
  intros Hno. unfold only_logged. cbn [ui world logged remote sent console].
  rewrite remote_called_refused by done. by unfold called.
Qed.

(** X5. No error of the service escapes a handler: the two fetches,
    [addCategory], the two toggles, the delete, the reset and the mount
    complete normally whatever the service answers and whatever state
    their closure holds; so does [addItem] for a category that has a
    pending text of its own or whose name is not a member every object
    inherits (for such a name with nothing typed the source fails on
    [trim], outside its [try]). *)
Theorem handlers_complete (s : Sys) (st : State) (id' : nat) (c : string) :
  (fetchItems session s).1 = Normal tt ∧
  (fetchCategories session s).1 = Normal tt ∧
  (addCategory session st s).1 = Normal tt ∧
  (is_Some (newItemInputs st !! c) ∨ c ∉ object_prototype_keys →
     (addItem session c st s).1 = Normal tt) ∧
  (toggleNeeded session id' st s).1 = Normal tt ∧
  (toggleBought session id' st s).1 = Normal tt ∧
  (deleteItem session id' st s).1 = Normal tt ∧
  (resetShopping session st s).1 = Normal tt ∧
  (mount session s).1 = Normal tt.
Proof.
  split_and!.
  - apply fetchItems_normal.
  - apply fetchCategories_normal.
  - unfold addCategory. destruct (_ || _); [done|apply guarded_normal].
  - intros _. unfold addItem. destruct (JS.not _); [done|apply guarded_normal].
  - unfold toggleNeeded. destruct (find _ _); [apply guarded_normal|done].
  - unfold toggleBought. destruct (find _ _); [apply guarded_normal|done].
  - apply guarded_normal.
  - apply guarded_normal.
  - unfold mount. destruct (JS.not _); [done|].
    unfold initializeData, bind, set. cbn [ui world].
    pose proof (fetchItems_normal session
                  (mkSys (setLoading true (ui s)) (world s))) as Hitems.
    destruct (fetchItems session _) as [c1 s1]. simpl in Hitems. subst c1.
    pose proof (fetchCategories_normal session s1) as Hcats.
    destruct (fetchCategories session s1) as [c2 s2]. simpl in Hcats. by subst c2.
Qed.

(** *** What a handler does to the tables *)

Lemma set_then_remote (f : State → State) (k : Async unit) :
  (∀ s, remote (world (k s).2) = remote (world s)) →
  ∀ s, remote (world (bind (set f) (λ _, k) s).2) = remote (world s).
Proof. intros Hk s. unfold bind, set. cbn [fst snd]. by rewrite Hk. Qed.

Lemma fetchItems_remote (s : Sys) :
  remote (world (fetchItems session s).2) = remote (world s).
Proof. by destruct (fetchItems_frame session s) as (_ & ? & _). Qed.

Lemma fetchCategories_remote (s : Sys) :
  remote (world (fetchCategories session s).2) = remote (world s).
Proof. by destruct (fetchCategories_frame session s) as (_ & _ & ? & _). Qed.

Lemma guarded_remote (req : DB.Request) (k : Async unit) (msg : string) (s : Sys) :
  (∀ s1, remote (world (k s1).2) = remote (world s1)) →
  remote (world (guarded req k msg s).2) = remote (called req s).
Proof.
  intros Hk. destruct (refused 0 s) eqn:Hcall.
  - by rewrite guarded_refused.
  - unfold try_catch, bind. rewrite call_accepted by done. cbn [error].
    specialize (Hk (mkSys (ui s) (called req s))).
    destruct (k _) as [[[]|e] s']; cbn [snd] in *; [done|].
    unfold console_error. by cbn [snd world remote].
Qed.

(** The tables after a handler are the tables after its one call. *)
Lemma handler_remote (s : Sys) :
  (∀ id' item, find (λ i, Nat.eqb (id i) id') (items (ui s)) = Some item →
     remote (world (dispatch (toggleNeeded session id') s)) =
       remote (called (DB.UpdateItem (DB.mkPatch (Some (negb (needed item))) None) id' uid) s) ∧
     remote (world (dispatch (toggleBought session id') s)) =
       remote (called (DB.UpdateItem (DB.mkPatch None (Some (negb (bought item)))) id' uid) s)) ∧
  (∀ id', remote (world (dispatch (deleteItem session id') s)) =
            remote (called (DB.DeleteItem id' uid) s)) ∧
  remote (world (dispatch (resetShopping session) s)) =
    remote (called (DB.UpdateItems (DB.mkPatch (Some false) (Some false)) uid) s).
Proof.
  split; [|split].
  - intros id' item Hfind. unfold dispatch, toggleNeeded, toggleBought.
    rewrite Hfind. split; apply guarded_remote, fetchItems_remote.
  - intros id'. apply guarded_remote, fetchItems_remote.
  - apply guarded_remote, set_then_remote, fetchItems_remote.
Qed.

Lemma foreign_map (q : Item → bool) (f : Item → Item) (l : list Item) :
  (∀ x, q x = true → DB.owned_by uid x = true) →
  (∀ x, DB.owned_by uid (f x) = DB.owned_by uid x) →
  List.filter (λ item, negb (DB.owned_by uid item)) (map (λ x, if q x then f x else x) l) =
  List.filter (λ item, negb (DB.owned_by uid item)) l.
Proof.
  intros Hq Hf. induction l as [|x l IH]; simpl; [done|].
  destruct (q x) eqn:Hx.
  - by rewrite Hf, (Hq x Hx).
  - by rewrite IH.
Qed.

Lemma foreign_filter (q : Item → bool) (l : list Item) :
  (∀ x, q x = true → DB.owned_by uid x = true) →
  List.filter (λ item, negb (DB.owned_by uid item)) (List.filter (λ x, negb (q x)) l) =
  List.filter (λ item, negb (DB.owned_by uid item)) l.
Proof.
  intros Hq. induction l as [|x l IH]; simpl; [done|].
  destruct (q x) eqn:Hx; simpl.
  - by rewrite (Hq x Hx).
  - by rewrite IH.
Qed.

Lemma is_row_owned (id' : nat) (x : Item) :
  DB.is_row id' uid x = true → DB.owned_by uid x = true.
Proof. unfold DB.is_row. by intros [_ ?]%andb_true_iff. Qed.

Lemma foreign_exec (r : DB.Request) (db : DB.Remote) :
  scoped uid r →
  foreign_items uid (DB.exec r db) = foreign_items uid db ∧
  foreign_categories uid (DB.exec r db) = foreign_categories uid db.
Proof.
  unfold foreign_items, foreign_categories.
  destruct r as [u|u|row|n c' nd bt u|p id' u|p u|id' u]; simpl; try done.
  - intros Hrow. split; [done|]. rewrite List.filter_app. simpl.
    rewrite Hrow, String.eqb_refl. simpl. by rewrite app_nil_r.
  - intros ->. split; [|done]. rewrite List.filter_app. simpl.
    unfold DB.owned_by at 2. simpl. rewrite String.eqb_refl. simpl. by rewrite app_nil_r.
  - intros ->. split; [|done]. apply foreign_map; [apply is_row_owned|done].
  - intros ->. split; [|done]. by apply foreign_map.
  - intros ->. split; [|done]. apply foreign_filter, is_row_owned.
Qed.

Lemma foreign_kept_world (s s' : Sys) (r : DB.Request) :
  scoped uid r → remote (world s') = remote (called r s) → foreign_kept uid s s'.
Proof.
  intros Hr Hw. unfold foreign_kept. rewrite Hw.
  unfold called. cbn [remote]. destruct (refused 0 s); [done|].
  by apply foreign_exec.
Qed.

(** X6. No handler changes a row of another user: after either add,
    either toggle, a delete or a reset, with the service answering or
    refusing, the items and the categories that are not the session
    user's are what they were. *)
Theorem handlers_keep_foreign_rows (s : Sys) (id' : nat) (c : string) :
  foreign_kept uid s (dispatch (addCategory session) s) ∧
  foreign_kept uid s (dispatch (addItem session c) s) ∧
  foreign_kept uid s (dispatch (toggleNeeded session id') s) ∧
  foreign_kept uid s (dispatch (toggleBought session id') s) ∧
  foreign_kept uid s (dispatch (deleteItem session id') s) ∧
  foreign_kept uid s (dispatch (resetShopping session) s).
Proof.
  destruct (handler_remote s) as (Htoggle & Hdelete & Hreset).
  split_and!.
  - unfold dispatch, addCategory. destruct (_ || _); [done|].
    eapply foreign_kept_world;
      [|apply guarded_remote; intros s1;
        apply set_then_remote, set_then_remote, fetchCategories_remote].
    done.
  - unfold dispatch, addItem. destruct (JS.not _); [done|].
    eapply foreign_kept_world;
      [|apply guarded_remote, set_then_remote, fetchItems_remote].
    done.
  - destruct (find (λ i, Nat.eqb (id i) id') (items (ui s))) as [item|] eqn:Hfind.
    + eapply foreign_kept_world; [|by apply Htoggle]. done.
    + unfold dispatch, toggleNeeded. by rewrite Hfind.
  - destruct (find (λ i, Nat.eqb (id i) id') (items (ui s))) as [item|] eqn:Hfind.
    + eapply foreign_kept_world; [|by apply Htoggle]. done.
    + unfold dispatch, toggleBought. by rewrite Hfind.
  - eapply foreign_kept_world; [|apply Hdelete]. done.
  - eapply foreign_kept_world; [|apply Hreset]. done.
Qed.

(** *** Refusals *)

(** X7. When the service refuses the call of a toggle, of a delete or of a
    reset, the handler logs one line and that is all: the state variables
    and the tables are what they were, and no re-fetch is sent. *)
Theorem refused_call_only_logged (s : Sys) (id' : nat) :
  refused 0 s = true →
  (∀ item, find (λ i, Nat.eqb (id i) id') (items (ui s)) = Some item →
     only_logged (DB.UpdateItem (DB.mkPatch (Some (negb (needed item))) None) id' uid)
                 "Error updating item:" s (dispatch (toggleNeeded session id') s) ∧
     only_logged (DB.UpdateItem (DB.mkPatch None (Some (negb (bought item)))) id' uid)
                 "Error updating item:" s (dispatch (toggleBought session id') s)) ∧
  only_logged (DB.DeleteItem id' uid) "Error deleting item:" s
              (dispatch (deleteItem session id') s) ∧
  only_logged (DB.UpdateItems (DB.mkPatch (Some false) (Some false)) uid)
              "Error resetting shopping:" s (dispatch (resetShopping session) s).
Proof.
  intros Hno. split_and!.
  - intros item Hfind. unfold dispatch, toggleNeeded, toggleBought. rewrite Hfind.
    rewrite !guarded_refused by done. split; by apply only_logged_refused.
  - unfold dispatch, deleteItem. rewrite guarded_refused by done.
    by apply only_logged_refused.
  - unfold dispatch, resetShopping. rewrite guarded_refused by done.
    by apply only_logged_refused.
Qed.

(** *** Accepted calls followed by the re-fetch *)

Lemma mutate_fetch_items (req : DB.Request) (msg : string) (s : Sys) :
  refused 0 s = false → refused 1 s = false →
  let s' := (guarded req (fetchItems session) msg s).2 in
  items (ui s') = DB.select_items uid (DB.exec req (remote (world s))) ∧
  remote (world s') = DB.exec req (remote (world s)).
Proof.
  intros Hok0 Hok1. cbv zeta.
  rewrite guarded_accepted by (done || apply fetchItems_normal).
  rewrite fetchItems_accepted by by rewrite refused_called.
  cbn [snd ui world items setItems]. rewrite remote_called_select. cbn [world].
  by rewrite remote_called_accepted.
Qed.

Lemma select_after_delete (id' : nat) (db : DB.Remote) :
  DB.select_items uid (DB.exec (DB.DeleteItem id' uid) db) =
  filter (λ item, id item ≠ id') (DB.select_items uid db).
Proof.
  unfold DB.select_items. simpl.
  induction (DB.shopping_items db) as [|x l IH]; simpl; [done|].
  unfold DB.is_row at 1. destruct (DB.owned_by uid x) eqn:Hx; simpl.
  - rewrite andb_true_r, filter_cons.
    destruct (Nat.eqb_spec (id x) id'); simpl; case_decide; try done.
    by rewrite Hx, IH.
  - rewrite andb_false_r. simpl. by rewrite Hx.
Qed.

(** X8. A delete that the service accepts removes the rows of the user
    with that id and no other row, in place; after the re-fetch the list
    on screen is the user's rows without that id.  The call is sent
    whether or not the list on screen has the id. *)
Theorem deleteItem_accepted (s : Sys) (id' : nat) :
  refused 0 s = false →
  let s' := dispatch (deleteItem session id') s in
  (∃ rest, sent (world s') = (sent (world s) ++ DB.DeleteItem id' uid :: rest)%list) ∧
  DB.shopping_items (remote (world s')) =
    filter (λ item, ¬ (id item = id' ∧ user_id item = uid))
           (DB.shopping_items (remote (world s))) ∧
  DB.categories (remote (world s')) = DB.categories (remote (world s)) ∧
  (refused 1 s = false →
     items (ui s') =
       filter (λ item, id item ≠ id') (DB.select_items uid (remote (world s)))).
Proof.
  intros Hok s'. subst s'.
  destruct (handler_remote s) as (_ & Hdelete & _). rewrite Hdelete.
  rewrite remote_called_accepted by done. cbn [DB.exec DB.shopping_items DB.categories].
  split_and!.
  - unfold dispatch, deleteItem.
    rewrite guarded_accepted by (done || apply fetchItems_normal).
    destruct (fetchItems_frame session
                (mkSys (ui s) (called (DB.DeleteItem id' uid) s))) as (_ & _ & Hsent).
    rewrite Hsent. cbn [world]. unfold called at 1. cbn [sent].
    exists [DB.SelectItems uid]. by rewrite <- app_assoc.
  - apply filter_reflect. intros item. unfold DB.is_row.
    rewrite negb_true_iff, andb_false_iff, <- !not_true_iff_false.
    rewrite Nat.eqb_eq, owned_by_true. split; [tauto|].
    intros Hn. destruct (decide (id item = id')); [right|left]; tauto.
  - done.
  - intros Hfetch. unfold dispatch, deleteItem.
    destruct (mutate_fetch_items (DB.DeleteItem id' uid) "Error deleting item:" s)
      as [Hitems _]; [done..|].
    rewrite Hitems. apply select_after_delete.
Qed.

(** *** Toggles seen from the screen *)

Lemma select_after_update (p : DB.Patch) (id' : nat) (db : DB.Remote) :
  DB.select_items uid (DB.exec (DB.UpdateItem p id' uid) db) =
  map (λ item, if decide (id item = id') then DB.patch p item else item)
      (DB.select_items uid db).
Proof.
  unfold DB.select_items. cbn [DB.exec DB.shopping_items].
  induction (DB.shopping_items db) as [|x l IH]; [done|].
  cbn [map List.filter].
  assert (DB.owned_by uid (if DB.is_row id' uid x then DB.patch p x else x) =
          DB.owned_by uid x) as -> by by destruct (DB.is_row id' uid x).
  destruct (DB.owned_by uid x) eqn:Hx; [|exact IH].
  cbn [map]. rewrite IH. f_equal. unfold DB.is_row. rewrite Hx, andb_true_r.
  destruct (Nat.eqb_spec (id x) id'); by case_decide.
Qed.

Lemma toggle_in_step (p : DB.Patch) (id' : nat) (msg : string) (s : Sys) :
  items (ui s) = DB.select_items uid (remote (world s)) →
  refused 0 s = false → refused 1 s = false →
  let s' := (guarded (DB.UpdateItem p id' uid) (fetchItems session) msg s).2 in
  items (ui s') =
    map (λ item, if decide (id item = id') then DB.patch p item else item) (items (ui s)) ∧
  items (ui s') = DB.select_items uid (remote (world s')) ∧
  (∀ n, refused n s' = refused (S (S n)) s).
Proof.
  intros Hsync Hok0 Hok1 s'.
  destruct (mutate_fetch_items (DB.UpdateItem p id' uid) msg s Hok0 Hok1)
    as [Hitems Hremote].
  fold s' in Hitems, Hremote. split_and!.
  - by rewrite Hitems, select_after_update, Hsync.
  - by rewrite Hitems, Hremote.
  - intros n. subst s'.
    rewrite guarded_accepted by (done || apply fetchItems_normal).
    rewrite fetchItems_accepted by by rewrite refused_called.
    cbn [snd]. by rewrite !refused_called.
Qed.

(** X9. With the list on screen in step with the service and both calls
    accepted, [toggleNeeded] negates the [needed] flag of the items with
    that id and changes nothing else on screen: not their [bought] flag,
    not any other item; and the screen is in step again. *)
Theorem toggleNeeded_effect (s : Sys) (id' : nat) (item : Item) :
  items (ui s) = DB.select_items uid (remote (world s)) →
  find (λ i, Nat.eqb (id i) id') (items (ui s)) = Some item →
  refused 0 s = false → refused 1 s = false →
  let s' := dispatch (toggleNeeded session id') s in
  items (ui s') =
    map (λ i, if decide (id i = id') then with_needed (negb (needed item)) i else i)
        (items (ui s)) ∧
  items (ui s') = DB.select_items uid (remote (world s')).
Proof.
  intros Hsync Hfind Hok0 Hok1 s'. subst s'. unfold dispatch, toggleNeeded.
  rewrite Hfind.
  by destruct (toggle_in_step (DB.mkPatch (Some (negb (needed item))) None) id'
                 "Error updating item:" s Hsync Hok0 Hok1) as (? & ? & _).
Qed.

(** X10. Likewise [toggleBought] negates the [bought] flag of the items
    with that id and changes nothing else on screen; their [needed] flag
    stays, so in store mode the row stays in its panel. *)
Theorem toggleBought_effect (s : Sys) (id' : nat) (item : Item) :
  items (ui s) = DB.select_items uid (remote (world s)) →
  find (λ i, Nat.eqb (id i) id') (items (ui s)) = Some item →
  refused 0 s = false → refused 1 s = false →
  let s' := dispatch (toggleBought session id') s in
  items (ui s') =
    map (λ i, if decide (id i = id') then with_bought (negb (bought item)) i else i)
        (items (ui s)) ∧
  items (ui s') = DB.select_items uid (remote (world s')).
Proof.
  intros Hsync Hfind Hok0 Hok1 s'. subst s'. unfold dispatch, toggleBought.
  rewrite Hfind.
  by destruct (toggle_in_step (DB.mkPatch None (Some (negb (bought item)))) id'
                 "Error updating item:" s Hsync Hok0 Hok1) as (? & ? & _).
Qed.

Lemma find_map_same_id (f : Item → Item) (id' : nat) (l : list Item) :
  (∀ i, id (f i) = id i) →
  find (λ i, Nat.eqb (id i) id') (map f l) = f <$> find (λ i, Nat.eqb (id i) id') l.
Proof.
  intros Hf. induction l as [|x l IH]; simpl; [done|].
  rewrite Hf. by destruct (Nat.eqb (id x) id').
Qed.

Lemma find_unique_id (id' : nat) (item : Item) (l : list Item) :
  NoDup (map id l) →
  find (λ i, Nat.eqb (id i) id') l = Some item →
  ∀ i, i ∈ l → id i = id' → i = item.
Proof.
  induction l as [|x l IH]; simpl; [done|].
  intros [Hx Hl]%NoDup_cons Hfind i Hin Hid.
  destruct (Nat.eqb_spec (id x) id') as [Hxid|Hxid].
  - injection Hfind as <-. apply elem_of_cons in Hin as [->|Hin]; [done|].
    destruct Hx. apply list_elem_of_fmap. exists i. split; [congruence|done].
  - apply elem_of_cons in Hin as [->|Hin]; [done|]. by apply IH.
Qed.

Lemma toggleBought_found (st : State) (s : Sys) (id' : nat) (item : Item) :
  find (λ i, Nat.eqb (id i) id') (items st) = Some item →
  dispatch_from st (toggleBought session id') s =
    (guarded (DB.UpdateItem (DB.mkPatch None (Some (negb (bought item)))) id' uid)
             (fetchItems session) "Error updating item:" s).2.
Proof. intros Hfind. unfold dispatch_from, toggleBought. by rewrite Hfind. Qed.

(** X11. With the list on screen in step with the service, ids pairwise
    distinct and all four calls accepted: a [toggleBought] changes the
    list on screen; a second one on the same id, made from the render that
    follows the first one's re-fetch, brings back the very list that was
    on screen; a second one made from the same render as the first, before
    the component re-renders, writes the same value again and leaves the
    list as the first one left it. *)
Theorem toggleBought_twice (s : Sys) (id' : nat) (item : Item) :
  items (ui s) = DB.select_items uid (remote (world s)) →
  NoDup (map id (items (ui s))) →
  find (λ i, Nat.eqb (id i) id') (items (ui s)) = Some item →
  refused 0 s = false → refused 1 s = false →
  refused 2 s = false → refused 3 s = false →
  let h := toggleBought session id' in
  let s1 := dispatch h s in
  items (ui s1) ≠ items (ui s) ∧
  items (ui (dispatch h s1)) = items (ui s) ∧
  items (ui (dispatch_from (ui s) h s1)) = items (ui s1).
Proof.
  intros Hsync Hids Hfind Hok0 Hok1 Hok2 Hok3 h s1.
  pose proof (find_unique_id id' item _ Hids Hfind) as Hunique.
  pose proof (toggleBought_found (ui s) s id' item Hfind) as Hrun1.
  change (dispatch_from (ui s) (toggleBought session id') s) with s1 in Hrun1.
  destruct (toggle_in_step (DB.mkPatch None (Some (negb (bought item)))) id'
              "Error updating item:" s Hsync Hok0 Hok1) as (Hitems1 & Hsync1 & Hrefused).
  rewrite <- Hrun1 in Hitems1, Hsync1, Hrefused.
  assert (find (λ i, Nat.eqb (id i) id') (items (ui s1)) =
          Some (with_bought (negb (bought item)) item)) as Hfind1.
  { rewrite Hitems1, find_map_same_id, Hfind; [|intros i; by case_decide].
    simpl. rewrite decide_True; [done|].
    apply find_some in Hfind as [_ Hid]. by apply Nat.eqb_eq. }
  split_and!.
  - intros Heq. rewrite Heq, Hfind in Hfind1. injection Hfind1 as Hsame.
    apply (f_equal bought) in Hsame. simpl in Hsame. by destruct (bought item).
  - change (dispatch h s1) with (dispatch_from (ui s1) h s1). subst h.
    rewrite (toggleBought_found (ui s1) s1 id' _ Hfind1).
    destruct (toggle_in_step
                (DB.mkPatch None (Some (negb (bought (with_bought (negb (bought item)) item)))))
                id' "Error updating item:" s1 Hsync1) as (Hitems2 & _ & _);
      [by rewrite Hrefused..|].
    rewrite Hitems2, Hitems1, map_map. simpl. rewrite negb_involutive.
    rewrite <- (map_id (items (ui s))) at 2. apply map_ext_in. intros i Hin.
    destruct (decide (id i = id')) as [Hid|Hid]; simpl.
    + rewrite decide_True by done.
      rewrite (Hunique i) by (by apply list_elem_of_In || done). by destruct item.
    + by rewrite decide_False.
  - subst h. rewrite (toggleBought_found (ui s) s1 id' item Hfind).
    destruct (toggle_in_step (DB.mkPatch None (Some (negb (bought item)))) id'
                "Error updating item:" s1 Hsync1) as (Hitems2 & _ & _);
      [by rewrite Hrefused..|].
    rewrite Hitems2, Hitems1, map_map. apply map_ext. intros i.
    destruct (decide (id i = id')) as [Hid|Hid]; simpl.
    + by rewrite decide_True.
    + by rewrite decide_False.
Qed.

(** *** From typing to the insert *)

Lemma or_empty_Some (v : string) : JS.or_empty (Some v) = v.
Proof.
  unfold JS.or_empty. pose proof (not_true v) as Hv.
  destruct (JS.not v); [|done]. symmetry. by apply Hv.
Qed.

(** X12. What was typed last into the input of a category is what
    [addItem] sends: after [updateNewItemInput c v], [addItem c] sends
    nothing when [v] trims to the empty text, and otherwise sends the
    insert of a row named [trim v] in category [c], not needed, not
    bought, for the user.  Typing touches the input of no other category. *)
Theorem typed_text_is_inserted (s : Sys) (c v : string) :
  let s1 := dispatch (updateNewItemInput c v) s in
  let s2 := dispatch (addItem session c) s1 in
  world s1 = world s ∧
  (∀ c', c' ≠ c → newItemInputs (ui s1) !! c' = newItemInputs (ui s) !! c') ∧
  (trim v = "" → s2 = s1) ∧
  (trim v ≠ "" →
     ∃ rest, sent (world s2) =
       (sent (world s) ++ DB.InsertItem (trim v) c false false uid :: rest)%list).
Proof.
  intros s1 s2.
  assert (trim (JS.or_empty (newItemInputs (ui s1) !! c)) = trim v) as Hpending.
  { subst s1. unfold dispatch, updateNewItemInput, set. cbn [snd ui newItemInputs setNewItemInputs].
    by rewrite lookup_insert_eq, or_empty_Some. }
  split_and!.
  - done.
  - intros c' Hc'. subst s1. unfold dispatch, updateNewItemInput, set.
    cbn [snd ui newItemInputs setNewItemInputs]. by rewrite lookup_insert_ne.
  - intros Hempty. subst s2. unfold dispatch, addItem.
    rewrite Hpending, Hempty. by destruct s1.
  - intros Hne. subst s2. destruct (refused 0 s1) eqn:Hcall.
    + rewrite addItem_refused_run by (by rewrite ?Hpending).
      rewrite Hpending. cbn [world logged sent]. unfold called. cbn [sent].
      by exists [].
    + rewrite addItem_accepted_run by (by rewrite ?Hpending).
      rewrite Hpending.
      match goal with |- context [fetchItems session ?s0] =>
        destruct (fetchItems_frame session s0) as (_ & _ & Hsent) end.
      rewrite Hsent. cbn [world]. unfold called. cbn [sent].
      exists [DB.SelectItems uid]. by rewrite <- app_assoc.
Qed.
End MoreHandlerFacts.

(** ** Local controls *)

(** X13. Collapsing is local and undoes itself: [toggleCategory] sends
    nothing and changes only whether that one category is collapsed, a
    second one on the same category brings back the very state; the mode
    button behaves the same way. *)
Theorem local_toggles (s : Sys) (c : string) :
  let s1 := dispatch (toggleCategory c) s in
  world s1 = world s ∧
  (c ∈ collapsedCategories (ui s1) ↔ c ∉ collapsedCategories (ui s)) ∧
  (∀ c', c' ≠ c →
     (c' ∈ collapsedCategories (ui s1) ↔ c' ∈ collapsedCategories (ui s))) ∧
  dispatch (toggleCategory c) s1 = s ∧
  dispatch toggleStoreMode (dispatch toggleStoreMode s) = s.
Proof.
  destruct s as [[its cats inputs collapsed mode form pending load] w].
  unfold dispatch, toggleCategory, toggleStoreMode, set. simpl. split_and!.
  - done.
  - case_decide; set_unfold; intuition congruence.
  - intros c' Hc'. case_decide; set_unfold; intuition congruence.
  - f_equal. unfold setCollapsedCategories. simpl. f_equal.
    destruct (decide (c ∈ collapsed)) as [Hin|Hout].
    + rewrite decide_False by (set_unfold; intuition congruence).
      apply set_eq. intros x. destruct (decide (x = c)); set_unfold; intuition congruence.
    + rewrite decide_True by (set_unfold; intuition congruence).
      apply set_eq. intros x. set_unfold. intuition congruence.
  - by rewrite negb_involutive.
Qed.

(** ** Fetching and mounting *)

Section FetchFacts.
Context `{JSString} (session : Session).

Local Abbreviation uid := (session_user_id session).

Lemma refused_logged (n : nat) (st : State) (msg : string) (w : World) :
  refused n (mkSys st (logged msg w)) = refused n (mkSys st w).
Proof. done. Qed.

(** X14. When the service refuses a fetch, the two lists degrade
    differently: the item list stays the one last fetched, the category
    list falls back to the built-in names alone, so the categories the
    user created leave the screen until a later fetch is answered. *)
Theorem fetch_refused (s : Sys) :
  refused 0 s = true →
  items (ui (fetchItems session s).2) = items (ui s) ∧
  categories (ui (fetchCategories session s).2) = defaultCategories ∧
  remote (world (fetchItems session s).2) = remote (world s) ∧
  remote (world (fetchCategories session s).2) = remote (world s).
Proof.
  intros Hno. rewrite fetchItems_refused, fetchCategories_refused by done.
  cbn [snd ui world logged remote]. rewrite !remote_called_refused by done.
  done.
Qed.

(** X15. Whatever the service answers, after [fetchCategories] the
    category list starts with the built-in names in their order, and what
    follows holds no built-in name; so in plan mode there is always a
    visible category. *)
Theorem builtins_always_listed (s : Sys) :
  let st' := ui (fetchCategories session s).2 in
  (∃ custom, categories st' = (defaultCategories ++ custom)%list ∧
             Forall (λ c, c ∉ defaultCategories) custom) ∧
  (storeMode st' = false → visibleCategories st' ≠ []).
Proof.
  intros st'.
  assert (∃ custom, categories st' = (defaultCategories ++ custom)%list ∧
                    Forall (λ c, c ∉ defaultCategories) custom) as Hlist.
  { subst st'. destruct (refused 0 s) eqn:Hcall.
    - rewrite fetchCategories_refused by done. exists []. by rewrite app_nil_r.
    - rewrite fetchCategories_accepted by done.
      cbn [snd ui categories setCategories]. rewrite allCategories_spec.
      eexists. split; [done|]. apply Forall_forall. intros c Hc.
      by apply list_elem_of_filter in Hc as [? _]. }
  split; [done|]. intros Hplan Hempty.
  destruct Hlist as (custom & Hcats & _).
  unfold visibleCategories in Hempty. rewrite Hplan, Hcats in Hempty.
  simpl in Hempty. by rewrite orb_true_r in Hempty.
Qed.

Lemma initializeData_run (s : Sys) :
  let s1 := (fetchItems session (mkSys (setLoading true (ui s)) (world s))).2 in
  let s2 := (fetchCategories session s1).2 in
  initializeData session s = (Normal tt, mkSys (setLoading false (ui s2)) (world s2)).
Proof.
  unfold initializeData, bind, set. cbn [ui world].
  pose proof (fetchItems_normal session (mkSys (setLoading true (ui s)) (world s))) as H1.
  destruct (fetchItems session _) as [c1 s1]. simpl in H1. subst c1. cbn [snd].
  pose proof (fetchCategories_normal session s1) as H2.
  destruct (fetchCategories session s1) as [c2 s2]. simpl in H2. by subst c2.
Qed.

(** X16. Mounting with no user id does nothing.  With a user id it sends
    the two fetches, items first, changes no table, and ends with
    [loading] false whatever the service answered; the item list is the
    user's rows when the first call is answered and is left alone
    otherwise; the category list is the resolved one when the second call
    is answered and the built-in names otherwise. *)
Theorem mount_outcomes (s : Sys) :
  let s' := (mount session s).2 in
  (uid = "" → s' = s) ∧
  (uid ≠ "" →
     loading (ui s') = false ∧
     sent (world s') =
       (sent (world s) ++ [DB.SelectItems uid; DB.SelectCategories uid])%list ∧
     remote (world s') = remote (world s) ∧
     items (ui s') =
       (if refused 0 s then items (ui s)
        else DB.select_items uid (remote (world s))) ∧
     categories (ui s') =
       (if refused 1 s then defaultCategories
        else allCategories
               (map Cat.name (DB.select_categories uid (remote (world s)))))).
Proof.
  intros s'. subst s'. unfold mount. pose proof (not_true uid) as Hguard.
  destruct (JS.not uid).
  { split; [done|]. intros Hne. by destruct Hne; apply Hguard. }
  split; [intros Hempty; apply Hguard in Hempty; discriminate|]. intros _.
  rewrite initializeData_run. cbn [snd ui world loading setLoading].
  set (s0 := mkSys (setLoading true (ui s)) (world s)).
  assert (∀ n, refused n s0 = refused n s) as Hs0 by done.
  destruct (refused 0 s) eqn:Hcall0, (refused 1 s) eqn:Hcall1.
  - rewrite (fetchItems_refused session s0) by by rewrite Hs0. cbn [snd].
    rewrite fetchCategories_refused by by rewrite refused_logged, refused_called, Hs0.
    cbn [snd ui world logged sent remote items categories setCategories].
    rewrite !remote_called_refused
      by by rewrite ?refused_logged, ?refused_called, Hs0.
    split_and!; try done; unfold called, logged; simpl;
      rewrite <- ?app_assoc; repeat (destruct (refused 0 _)); done.
  - rewrite (fetchItems_refused session s0) by by rewrite Hs0. cbn [snd].
    rewrite fetchCategories_accepted by by rewrite refused_logged, refused_called, Hs0.
    cbn [snd ui world logged sent remote items categories setCategories].
    rewrite remote_called_accepted by by rewrite ?refused_logged, ?refused_called, Hs0.
    cbn [DB.exec world logged remote]. rewrite remote_called_refused by by rewrite Hs0.
    split_and!; try done; unfold called, logged; simpl;
      rewrite <- ?app_assoc; repeat (destruct (refused 0 _)); done.
  - rewrite (fetchItems_accepted session s0) by by rewrite Hs0. cbn [snd].
    rewrite fetchCategories_refused by by rewrite refused_called, Hs0.
    cbn [snd ui world logged sent remote items categories setCategories setItems].
    rewrite remote_called_refused by by rewrite refused_called, Hs0.
    cbn [world]. rewrite remote_called_select.
    split_and!; try done; unfold called, logged; simpl;
      rewrite <- ?app_assoc; repeat (destruct (refused 0 _)); done.
  - rewrite (fetchItems_accepted session s0) by by rewrite Hs0. cbn [snd].
    rewrite fetchCategories_accepted by by rewrite refused_called, Hs0.
    cbn [snd ui world logged sent remote items categories setCategories setItems].
    rewrite remote_called_accepted by by rewrite refused_called, Hs0.
    cbn [DB.exec world]. rewrite remote_called_select.
    split_and!; try done; unfold called, logged; simpl;
      rewrite <- ?app_assoc; repeat (destruct (refused 0 _)); done.
Qed.
End FetchFacts.

(** ** Clicking a row *)

Section ClickFacts.
Context `{JSString} (session : Session).

Local Abbreviation uid := (session_user_id session).

Lemma shownItems_in_items (st : State) (item : Item) :
  item ∈ shownItems st → item ∈ items st.
Proof.
  unfold shownItems. rewrite !list_elem_of_In, in_flat_map.
  intros (c & _ & Hrow). destruct (negb _); [|done].
  by apply In_getItemsByCategory in Hrow as [? _].
Qed.

Lemma find_same_id (item : Item) (l : list Item) :
  item ∈ l →
  ∃ item', find (λ i, Nat.eqb (id i) (id item)) l = Some item' ∧ id item' = id item.
Proof.
  induction 1 as [item l|item x l _ IH]; simpl.
  - rewrite Nat.eqb_refl. eauto.
  - destruct (Nat.eqb_spec (id x) (id item)); eauto.
Qed.

Lemma update_then_fetch_sent (p : DB.Patch) (id' : nat) (msg : string) (s : Sys) :
  ∃ rest,
    sent (world (try_catch
                   (bind (call (D := unit) (DB.UpdateItem p id' uid) (λ _, None))
                         (λ r, match error r with
                               | Some e => throw e
                               | None => fetchItems session
                               end))
                   (λ _, console_error msg) s).2) =
    (sent (world s) ++ DB.UpdateItem p id' uid :: rest)%list.
Proof.
  destruct (refused 0 s) eqn:Hcall.
  - rewrite guarded_refused by done. exists []. by unfold called.
  - rewrite guarded_accepted by (done || apply fetchItems_normal).
    match goal with |- context [fetchItems session ?s0] =>
      destruct (fetchItems_frame session s0) as (_ & _ & Hsent) end.
    rewrite Hsent. exists [DB.SelectItems uid]. unfold called. simpl.
    by rewrite <- app_assoc.
Qed.

(** X17. A click on a row that is on screen always reaches the service:
    the handler finds an item with the row's id in the list and sends an
    update for that id and the user; the update names only [bought] in
    store mode and only [needed] in plan mode, each negated from the item
    found. *)
Theorem clickItem_sends_update (s : Sys) (item : Item) :
  item ∈ shownItems (ui s) →
  ∃ item' rest,
    find (λ i, Nat.eqb (id i) (id item)) (items (ui s)) = Some item' ∧
    id item' = id item ∧
    sent (world (dispatch (clickItem session item) s)) =
      (sent (world s) ++
         DB.UpdateItem
           (if storeMode (ui s)
            then DB.mkPatch None (Some (negb (bought item')))
            else DB.mkPatch (Some (negb (needed item'))) None)
           (id item) uid
         :: rest)%list.
Proof.
  intros Hshown. apply shownItems_in_items, find_same_id in Hshown as (item' & Hfind & Hid).
  unfold dispatch, clickItem, toggleBought, toggleNeeded.
  destruct (storeMode (ui s)); rewrite Hfind;
    match goal with |- context [DB.UpdateItem ?p _ _] =>
      destruct (update_then_fetch_sent p (id item) "Error updating item:" s) as [rest Hsent]
    end; eauto.
Qed.
End ClickFacts.

(** ** The further properties at concrete inputs *)

(** The fruit panel: 1/1 bought in store mode, 1/2 needed in plan mode. *)
Lemma getCategoryStats_counts_witness :
  let st := ui (aisle []) in
  storeMode st = true ∧
  @getCategoryStats Ascii7.platform st "Fruit/Veggie" = (1%nat, 1%nat) ∧
  @getCategoryStats Ascii7.platform (setStoreMode false st) "Fruit/Veggie" = (1%nat, 2%nat).
Proof.
  destruct (@getCategoryStats_counts Ascii7.platform (ui (aisle [])) "Fruit/Veggie")
    as (Hstore & _ & _ & _).
  destruct (@getCategoryStats_counts Ascii7.platform
              (setStoreMode false (ui (aisle []))) "Fruit/Veggie") as (_ & Hplan & _ & _).
  split; [reflexivity|]. split; [exact (Hstore eq_refl)|exact (Hplan eq_refl)].
Defined.

(** The store screen with the apple bought: one bought, none remaining. *)
Lemma store_panels_add_up_witness :
  let st := ui (aisle []) in
  storeMode st = true ∧
  NoDup (categories st) ∧
  sum_list (map (λ c, (@getCategoryStats Ascii7.platform st c).1)
                (@visibleCategories Ascii7.platform st)) = getBoughtItemsCount st ∧
  getBoughtItemsCount st = 1%nat ∧ getNeededItemsCount st = 0%nat.
Proof.
  assert (NoDup (categories (ui (aisle [])))) as Hcats
    by (apply (bool_decide_unpack _); reflexivity).
  assert (∀ item, item ∈ items (ui (aisle [])) → needed item = true →
                  category item ∈ categories (ui (aisle []))) as Hcover.
  { intros item Hin _. apply (bool_decide_unpack _).
    apply elem_of_cons in Hin as [->|Hin]; [reflexivity|].
    apply elem_of_cons in Hin as [->|Hin]; [reflexivity|].
    by apply elem_of_nil in Hin. }
  destruct (@store_panels_add_up Ascii7.platform (ui (aisle [])) eq_refl Hcats Hcover)
    as [Hbought _].
  split; [reflexivity|]. split; [exact Hcats|]. split; [exact Hbought|].
  split; reflexivity.
Defined.

(** The service is down: toggles, delete and reset only log. *)
Lemma refused_call_only_logged_witness :
  refused 0 (planning [true]) = true ∧
  only_logged (DB.DeleteItem 1 "alice") "Error deleting item:" (planning [true])
              (dispatch (deleteItem alice 1) (planning [true])) ∧
  ui (dispatch (toggleNeeded alice 1) (planning [true])) = ui (planning [true]).
Proof.
  destruct (refused_call_only_logged alice (planning [true]) 1 eq_refl)
    as (Htoggle & Hdelete & _).
  destruct (Htoggle milk eq_refl) as [(Hui & _) _].
  split; [reflexivity|]. split; [exact Hdelete|exact Hui].
Defined.

(** Deleting the milk. *)
Lemma deleteItem_accepted_witness :
  let s' := dispatch (deleteItem alice 1) (planning []) in
  refused 0 (planning []) = false ∧
  DB.shopping_items (remote (world s')) = [banana; apple; bob's_rice] ∧
  items (ui s') = [banana; apple].
Proof.
  destruct (deleteItem_accepted alice (planning []) 1 eq_refl)
    as (_ & Hrows & _ & Hitems).
  split; [reflexivity|]. split; [exact Hrows|exact (Hitems eq_refl)].
Defined.

(** The needed milk, not bought: one toggle of each kind. *)
Lemma toggleNeeded_effect_witness :
  items (ui (planning [])) = DB.select_items "alice" (remote (world (planning []))) ∧
  items (ui (dispatch (toggleNeeded alice 1) (planning []))) =
    [with_needed false milk; banana; apple].
Proof.
  destruct (toggleNeeded_effect alice (planning []) 1 milk
              eq_refl eq_refl eq_refl eq_refl) as [Hitems _].
  split; [reflexivity|exact Hitems].
Defined.

Lemma toggleBought_effect_witness :
  items (ui (planning [])) = DB.select_items "alice" (remote (world (planning []))) ∧
  items (ui (dispatch (toggleBought alice 1) (planning []))) =
    [with_bought true milk; banana; apple].
Proof.
  destruct (toggleBought_effect alice (planning []) 1 milk
              eq_refl eq_refl eq_refl eq_refl) as [Hitems _].
  split; [reflexivity|exact Hitems].
Defined.

Lemma toggleBought_twice_witness :
  let h := toggleBought alice 1 in
  let s1 := dispatch h (planning []) in
  NoDup (map id (items (ui (planning [])))) ∧
  items (ui s1) = [with_bought true milk; banana; apple] ∧
  items (ui (dispatch h s1)) = [milk; banana; apple] ∧
  items (ui (dispatch_from (ui (planning [])) h s1)) = [with_bought true milk; banana; apple].
Proof.
  assert (NoDup (map id (items (ui (planning []))))) as Hids
    by (apply (bool_decide_unpack _); reflexivity).
  destruct (toggleBought_twice alice (planning []) 1 milk eq_refl Hids eq_refl
              eq_refl eq_refl eq_refl eq_refl) as (_ & Hback & Hstale).
  split; [exact Hids|]. split; [reflexivity|]. split; [exact Hback|exact Hstale].
Defined.

(** Typing [" Oats "] into Bulk, then Enter. *)
Lemma typed_text_is_inserted_witness :
  let s1 := dispatch (updateNewItemInput "Bulk" " Oats ") (planning []) in
  let s2 := dispatch (@addItem Ascii7.platform alice "Bulk") s1 in
  Ascii7.trim " Oats " = "Oats" ∧
  ∃ rest, sent (world s2) = DB.InsertItem "Oats" "Bulk" false false "alice" :: rest.
Proof.
  destruct (@typed_text_is_inserted Ascii7.platform alice (planning []) "Bulk" " Oats ")
    as (_ & _ & _ & Hsent).
  split; [reflexivity|]. apply Hsent. by vm_compute.
Defined.

(** Both fetches refused on a screen that had a custom category. *)
Lemma fetch_refused_witness :
  let s := mkSys (setCategories (defaultCategories ++ ["Snacks"]) (ui (planning [true])))
                 (world (planning [true])) in
  refused 0 s = true ∧
  items (ui (fetchItems alice s).2) = [milk; banana; apple] ∧
  categories (ui (fetchCategories alice s).2) = defaultCategories.
Proof.
  destruct (fetch_refused alice
              (mkSys (setCategories (defaultCategories ++ ["Snacks"]) (ui (planning [true])))
                     (world (planning [true]))) eq_refl) as (Hitems & Hcats & _).
  split; [reflexivity|]. split; [exact Hitems|exact Hcats].
Defined.

Lemma builtins_always_listed_witness :
  let st' := ui (fetchCategories alice (with_categories ["Snacks"])).2 in
  storeMode st' = false ∧ @visibleCategories Ascii7.platform st' ≠ [].
Proof.
  destruct (@builtins_always_listed Ascii7.platform alice (with_categories ["Snacks"]))
    as [_ Hvisible].
  split; [reflexivity|exact (Hvisible eq_refl)].
Defined.

(** Mounting with the item fetch refused and the category fetch answered. *)
Lemma mount_outcomes_witness :
  let s := mkSys initialState (world (planning [true])) in
  let s' := (mount alice s).2 in
  session_user_id alice ≠ "" ∧
  loading (ui s') = false ∧
  items (ui s') = [] ∧
  categories (ui s') = defaultCategories.
Proof.
  destruct (mount_outcomes alice (mkSys initialState (world (planning [true]))))
    as [_ Hmount].
  destruct (Hmount ltac:(discriminate)) as (Hloading & _ & _ & Hitems & Hcats).
  split; [discriminate|]. split; [exact Hloading|]. split; [exact Hitems|exact Hcats].
Defined.

(** The apple row of the store screen. *)
Lemma clickItem_sends_update_witness :
  apple ∈ @shownItems Ascii7.platform (ui (aisle [])) ∧
  ∃ rest, sent (world (dispatch (clickItem alice apple) (aisle []))) =
            DB.UpdateItem (DB.mkPatch None (Some false)) 3 "alice" :: rest.
Proof.
  assert (apple ∈ @shownItems Ascii7.platform (ui (aisle []))) as Hshown
    by (change (apple ∈ [apple]); left).
  split; [exact Hshown|].
  destruct (@clickItem_sends_update Ascii7.platform alice (aisle []) apple Hshown)
    as (item' & rest & Hfind & _ & Hsent).
  exists rest. injection Hfind as <-. exact Hsent.
Defined.

(** The store screen has a row for the needed apple only, and no row
    while loading. *)
Lemma screenItems_spec_witness :
  let st := ui (aisle []) in
  NoDup (categories st) ∧ NoDup (map id (items st)) ∧
  @screenItems Ascii7.platform st = [apple] ∧
  @screenItems Ascii7.platform (setLoading true st) = [] ∧
  NoDup (@screenItems Ascii7.platform st).
Proof.
  assert (NoDup (categories (ui (aisle [])))) as Hcats
    by (apply (bool_decide_unpack _); reflexivity).
  assert (NoDup (map id (items (ui (aisle []))))) as Hids
    by (apply (bool_decide_unpack _); reflexivity).
  destruct (@screenItems_spec Ascii7.platform (ui (aisle [])) Hcats Hids) as [Hrows _].
  split; [exact Hcats|]. split; [exact Hids|]. split; [reflexivity|].
  split; [reflexivity|exact Hrows].
Defined.

(** Enter in the Bread input of the planning screen, where [" Rye "] is
    pending, and the Add button of Bulk, where nothing is. *)
Lemma handlers_complete_witness :
  is_Some (newItemInputs (ui (planning [true])) !! "Bread") ∧
  ("Bulk" ∉ object_prototype_keys) ∧
  (@addItem Ascii7.platform alice "Bread" (ui (planning [true])) (planning [true])).1 =
    Normal tt ∧
  (@addItem Ascii7.platform alice "Bulk" (ui (planning [true])) (planning [true])).1 =
    Normal tt.
Proof.
  assert (is_Some (newItemInputs (ui (planning [true])) !! "Bread")) as Hown
    by (by eexists).
  assert ("Bulk" ∉ object_prototype_keys) as Hname
    by (apply (bool_decide_unpack _); reflexivity).
  destruct (@handlers_complete Ascii7.platform alice (planning [true])
              (ui (planning [true])) 0 "Bread") as (_ & _ & _ & Hbread & _).
  destruct (@handlers_complete Ascii7.platform alice (planning [true])
              (ui (planning [true])) 0 "Bulk") as (_ & _ & _ & Hbulk & _).
  split; [exact Hown|]. split; [exact Hname|].
  split; [exact (Hbread (or_introl Hown))|exact (Hbulk (or_intror Hname))].
Defined.
